(** * Session titler: a shallow embedding of [session-titler.ts]

    The titler reads per-project [sessions-index.json] files, decides which
    sessions need a (re)title, builds a bounded excerpt of each session's
    message log, asks a local model for a title and writes the index back.

    JavaScript strings are sequences of UTF-16 code units; [length],
    [slice], [trim] and [split] all work on code units.  We therefore model
    a string as a list of code units, and the array/string method [slice]
    with its relative-index normalisation written out.  Counts, lengths and
    thresholds are integers; a number that can be [NaN] is an optional
    integer.  Optional fields are options, and the truthiness tests of the
    source ([!entry.customTitle]) are written out, since [undefined] and
    the empty string are both falsy.  The file system, the model endpoint,
    the clock and the console are the components of an explicit world that
    the asynchronous functions thread through a state-and-exception
    monad. *)

From stdpp Require Import base numbers option list strings gmap pretty sorting.
From Stdlib Require Import ZArith Lia.

Local Open Scope Z_scope.

(** ** JavaScript strings and arrays *)

Module Js.

Abbreviation jsstr := (list N).

(** An ASCII literal as a string of code units. *)
Definition lit (s : string) : jsstr :=
  List.map Ascii.N_of_ascii (String.list_ascii_of_string s).

(** ToBoolean on a string: the empty string is falsy. *)
Definition truthy (s : jsstr) : bool :=
  match s with [] => false | _ :: _ => true end.

(** ToBoolean on an optional string: [undefined] and the empty string are
    falsy. *)
Definition truthy_opt (o : option jsstr) : bool :=
  match o with Some s => truthy s | None => false end.

(** [a || b] on optional strings. *)
Definition or_else (a b : option jsstr) : option jsstr :=
  if truthy_opt a then a else b.

(** ECMAScript relative index: a negative index counts from the end, and
    the result is clamped to [0 .. len]. *)
Definition rel_index (len k : Z) : Z :=
  if k <? 0 then Z.max (len + k) 0 else Z.min k len.

(** [l.slice(start, end)] for arrays and strings alike; [end_ = None] is the
    one-argument form. *)
Definition slice {A : Type} (l : list A) (start : Z) (end_ : option Z) : list A :=
  let len := Z.of_nat (length l) in
  let from := rel_index len start in
  let final := match end_ with Some e => rel_index len e | None => len end in
  take (Z.to_nat (final - from)) (drop (Z.to_nat from) l).

(** WhiteSpace and LineTerminator code units, the characters [trim] strips. *)
Definition isWhiteSpace (c : N) : bool :=
  ((c =? 9) || (c =? 10) || (c =? 11) || (c =? 12) || (c =? 13) || (c =? 32)
   || (c =? 160) || (c =? 5760) || ((8192 <=? c) && (c <=? 8202))
   || (c =? 8232) || (c =? 8233) || (c =? 8239) || (c =? 8287)
   || (c =? 12288) || (c =? 65279))%N.

Fixpoint trimStart (s : jsstr) : jsstr :=
  match s with
  | [] => []
  | c :: s' => if isWhiteSpace c then trimStart s' else s
  end.

Definition trimEnd (s : jsstr) : jsstr := reverse (trimStart (reverse s)).

Definition trim (s : jsstr) : jsstr := trimEnd (trimStart s).

(** [l.join(sep)] *)
Fixpoint join (sep : jsstr) (l : list jsstr) : jsstr :=
  match l with
  | [] => []
  | x :: rest =>
      match rest with
      | [] => x
      | _ :: _ => x ++ sep ++ join sep rest
      end
  end.

(** [s.split(sep)] for a one-unit separator; the empty string splits into
    one empty piece. *)
Fixpoint split (sep : N) (s : jsstr) : list jsstr :=
  match s with
  | [] => [[]]
  | c :: s' =>
      if (c =? sep)%N then [] :: split sep s'
      else match split sep s' with
           | piece :: pieces => (c :: piece) :: pieces
           | [] => [[c]]
           end
  end.

(** A JavaScript number that is either an integer or [NaN]. *)
Abbreviation num := (option Z).

(** [a > b]: false as soon as one side is [NaN]. *)
Definition num_gt (a b : num) : bool :=
  match a, b with
  | Some x, Some y => bool_decide (y < x)
  | _, _ => false
  end.

Definition nl : N := 10%N.

Global Arguments lit : simpl never.
Global Arguments slice : simpl never.
Global Arguments trim : simpl never.

End Js.

Import Js.

(** ** Data model ([lib.ts] and the [Message] interface) *)

Record SessionIndexEntry := {
  sessionId : jsstr;
  firstPrompt : jsstr;
  projectPath : jsstr;
  created : jsstr;
  modified : jsstr;
  messageCount : Z;
  fullPath : jsstr;
  customTitle : option jsstr;
  titledAt : option jsstr;
}.

Record SessionIndex := {
  version : Z;
  entries : list SessionIndexEntry;
}.

(** One content block of an assistant message: [{ type; text? }]. *)
Record Block := {
  block_type : jsstr;
  block_text : option jsstr;
}.

(** [content?: string | Array<{ type; text? }>] *)
Inductive Content :=
| CString (s : jsstr)
| CBlocks (bs : list Block).

Record MessageBody := {
  role : option jsstr;
  content : option Content;
}.

Record Message := {
  msg_type : jsstr;
  message : option MessageBody;
}.

(** [msg.message?.content] *)
Definition message_content (msg : Message) : option Content :=
  match message msg with
  | Some body => content body
  | None => None
  end.

(** ** CONFIG *)

Module CONFIG.

(** about 1000 tokens *)
Definition maxChars : Z := 4000.

(** the last N messages are used *)
Definition numMessages : Z := 10.

(** [join(homedir(), ".claude/projects")], with the home directory
    written [~] *)
Definition projectsDir : jsstr := lit "~/.claude/projects".

End CONFIG.

(** ** Excerpt builder *)

(** The inner [for (const block of content)] loop of [extractConversation]:
    push one line for the first qualifying block, then [break]. *)
Fixpoint push_first_text (conversation : list jsstr) (blocks : list Block) : list jsstr :=
  match blocks with
  | [] => conversation
  | block :: rest =>
      if bool_decide (block_type block = lit "text")
         && truthy_opt (trim <$> block_text block)
      then conversation ++ [lit "Assistant: " ++ slice (default [] (block_text block)) 0 (Some 200)]
      else push_first_text conversation rest
  end.

(** One iteration of the outer loop. *)
Definition extract_step (conversation : list jsstr) (msg : Message) : list jsstr :=
  if bool_decide (msg_type msg = lit "user") then
    match message_content msg with
    | Some (CString s) =>
        if truthy (trim s)
        then conversation ++ [lit "User: " ++ slice s 0 (Some 300)]
        else conversation
    | _ => conversation
    end
  else if bool_decide (msg_type msg = lit "assistant") then
    match message_content msg with
    | Some (CBlocks bs) => push_first_text conversation bs
    | _ => conversation
    end
  else conversation.

Definition extractConversation (messages : list Message) : list jsstr :=
  foldl extract_step [] messages.

Definition prepareConversationText
    (conversation : list jsstr) (maxChars numMessages : Z) : jsstr :=
  let recentConversation := slice conversation (- numMessages) None in
  let combined := join [nl] recentConversation in
  if Z.of_nat (length combined) >? maxChars
  then lit "..." ++ slice combined (- (maxChars - 3)) None
  else combined.

(** ** The runtime the titler runs against

    The index files and session logs live on a file system, titles come
    from an HTTP endpoint, [titledAt] from the clock.  Exceptions are
    values: an [await] that rejects and a [throw] both produce [Throw]. *)

Inductive Exn :=
| ENOENT (path : jsstr)   (* readFile / readdir on a path that is not there *)
| SyntaxError             (* JSON.parse on malformed text *)
| FetchError              (* fetch rejected: connection refused, DNS, ... *)
| BodyError.              (* response.json() rejected, or a payload of the wrong shape *)

(** The part of a chat-completion payload the titler looks at:
    [data.choices?.[0]?.message.{content, reasoning_content}]. *)
Record ChatMessage := {
  reply_content : option jsstr;
  reasoning_content : option jsstr;
}.

Record Choice := { choice_message : option ChatMessage }.

Record Completion := { choices : option (list Choice) }.

Inductive FetchOutcome :=
| Rejected
| Response (status : Z) (body : option Completion).

(** What the program prints, one constructor per [console.log] /
    [console.error] call site, carrying the interpolated values. *)
Inductive Line :=
| ErrQwenApi (status : Z)
| ErrFailedToCallQwen (err : Exn)
| ErrReadingProjectsDir (err : Exn)
| LogProcessingIndex (indexPath : jsstr)
| LogFoundUntitled (n : nat)
| LogFoundRetitle (n : nat)
| LogNoSessions (total : nat)
| LogSession (isRetitle : bool) (id8 : jsstr) (msgs : nat) (estTokens : Z)
| LogDryRun (isRetitle : bool) (prompt50 : jsstr)
| LogFailedTitle
| LogTitle (isRetitle : bool) (title : jsstr)
| LogSaved (n : nat) (indexPath : jsstr)
| LogBanner
| LogMode (dryRun : bool)
| LogFoundIndexFiles (n : nat)
| LogDone (totalUpdated : nat).

Record World := {
  files : gmap jsstr jsstr;          (* path ↦ file content *)
  dirs : gmap jsstr (list jsstr);    (* directory ↦ names in it *)
  requests : list jsstr;             (* prompts POSTed to the model so far *)
  writes : list jsstr;               (* paths written with writeFile so far *)
  ticks : nat;                       (* clock readings taken so far *)
  console : list Line;               (* everything printed so far *)
}.

(** Library and environment behaviour the source relies on but does not
    define.  [JSON.parse] returns [any]; it is taken at the type the source
    declares for its result, with [None] for a [SyntaxError].  The endpoint
    and the clock are oracles indexed by the number of earlier calls, so
    that two requests with the same prompt may be answered differently. *)
Class Runtime := {
  (** [new Date(s).getTime()], [None] for [NaN] *)
  Date_getTime : jsstr → num;
  (** [JSON.parse] of one log line, at the declared type [Message] *)
  JSON_parse_message : jsstr → option Message;
  (** [JSON.parse] of an index file, at the declared type [SessionIndex] *)
  JSON_parse_index : jsstr → option SessionIndex;
  (** [JSON.stringify(index, null, 2)] *)
  JSON_stringify : SessionIndex → jsstr;
  (** [path.join(a, b, c)] *)
  path_join : jsstr → jsstr → jsstr → jsstr;
  (** what the endpoint answers to the [k]-th request of the run *)
  fetch_outcome : nat → jsstr → FetchOutcome;
  (** the [k]-th reading of [new Date().toISOString()] *)
  Date_toISOString : nat → jsstr;
}.

Inductive Res (A : Type) :=
| Val (a : A)
| Throw (e : Exn).
Arguments Val {A} a.
Arguments Throw {A} e.

Definition M (A : Type) : Type := World → Res A * World.

Definition throw {A : Type} (e : Exn) : M A := λ w, (Throw e, w).

Global Instance M_ret : MRet M := λ A a w, (Val a, w).

Global Instance M_bind : MBind M := λ A B k m w,
  match m w with
  | (Val a, w') => k a w'
  | (Throw e, w') => (Throw e, w')
  end.

(** [try { body } catch (err) { handler }] *)
Definition try_catch {A : Type} (body : M A) (handler : Exn → M A) : M A := λ w,
  match body w with
  | (Val a, w') => (Val a, w')
  | (Throw e, w') => handler e w'
  end.

(** [for (const x of l) { s = body(s, x) }] over the loop's local state. *)
Fixpoint for_of {A S : Type} (l : list A) (s : S) (body : S → A → M S) : M S :=
  match l with
  | [] => mret s
  | x :: rest => s' ← body s x; for_of rest s' body
  end.

Definition with_files (w : World) (fs : gmap jsstr jsstr) : World :=
  {| files := fs; dirs := dirs w; requests := requests w; writes := writes w;
     ticks := ticks w; console := console w |}.

Definition with_requests (w : World) (rs : list jsstr) : World :=
  {| files := files w; dirs := dirs w; requests := rs; writes := writes w;
     ticks := ticks w; console := console w |}.

Definition with_writes (w : World) (ws : list jsstr) : World :=
  {| files := files w; dirs := dirs w; requests := requests w; writes := ws;
     ticks := ticks w; console := console w |}.

Definition with_ticks (w : World) (n : nat) : World :=
  {| files := files w; dirs := dirs w; requests := requests w; writes := writes w;
     ticks := n; console := console w |}.

Definition with_console (w : World) (c : list Line) : World :=
  {| files := files w; dirs := dirs w; requests := requests w; writes := writes w;
     ticks := ticks w; console := c |}.

(** [readFile] and [readdir] reject exactly when nothing is stored at the
    path; [writeFile] creates or overwrites the file and is assumed to
    succeed. *)
Definition readFile (path : jsstr) : M jsstr := λ w,
  match files w !! path with
  | Some data => (Val data, w)
  | None => (Throw (ENOENT path), w)
  end.

Definition readdir (path : jsstr) : M (list jsstr) := λ w,
  match dirs w !! path with
  | Some names => (Val names, w)
  | None => (Throw (ENOENT path), w)
  end.

Definition writeFile (path data : jsstr) : M unit := λ w,
  (Val tt, with_writes (with_files w (<[path := data]> (files w))) (writes w ++ [path])).

Definition console_log (l : Line) : M unit := λ w,
  (Val tt, with_console w (console w ++ [l])).

Definition console_error (l : Line) : M unit := console_log l.

Section Titler.

Context {rt : Runtime}.

(** ** Eligibility policy *)

Definition needsRetitling (entry : SessionIndexEntry) : bool :=
  if negb (truthy_opt (customTitle entry)) then false
  else if negb (truthy_opt (titledAt entry)) then false
  else
    let modifiedTime := Date_getTime (modified entry) in
    let titledTime := Date_getTime (default [] (titledAt entry)) in
    num_gt modifiedTime titledTime.

Definition shouldProcessSession (entry : SessionIndexEntry) : bool :=
  if negb (truthy (trim (firstPrompt entry)))
     || bool_decide (firstPrompt entry = lit "No prompt")
  then false
  else if messageCount entry <? 3 then false
  else if negb (truthy_opt (customTitle entry)) then true
  else if needsRetitling entry then true
  else false.

(** ** Title generator *)

Definition TITLE_PROMPT (conversation : jsstr) : jsstr :=
  lit "Generate a concise 3-6 word title summarizing this conversation:"
  ++ [nl; nl] ++ conversation ++ [nl; nl]
  ++ lit "Reply with ONLY the title, no quotes or explanation. /no_think".

(** [await fetch(CONFIG.qwenUrl, { method: "POST", ... })]: the request is
    sent, then the call resolves to a response or rejects. *)
Definition fetch (prompt : jsstr) : M (Z * option Completion) := λ w,
  let w' := with_requests w (requests w ++ [prompt]) in
  match fetch_outcome (length (requests w)) prompt with
  | Rejected => (Throw FetchError, w')
  | Response status body => (Val (status, body), w')
  end.

(** [response.ok]: a status in the range 200-299. *)
Definition response_ok (response : Z * option Completion) : bool :=
  (200 <=? response.1) && (response.1 <=? 299).

(** [await response.json()] *)
Definition response_json (response : Z * option Completion) : M Completion :=
  match response.2 with
  | Some data => mret data
  | None => throw BodyError
  end.

(** [data.choices?.[0]?.message] *)
Definition first_choice_message (data : Completion) : option ChatMessage :=
  match choices data with
  | Some (choice :: _) => choice_message choice
  | _ => None
  end.

(** [message?.f] for an optional field [f] *)
Definition field (f : ChatMessage → option jsstr) (message : option ChatMessage)
    : option jsstr :=
  match message with
  | Some m => f m
  | None => None
  end.

Definition generateTitle (conversation : jsstr) : M (option jsstr) :=
  let prompt := TITLE_PROMPT conversation in
  try_catch
    (response ← fetch prompt;
     if negb (response_ok response) then
       console_error (ErrQwenApi response.1);;
       mret None
     else
       data ← response_json response;
       let message := first_choice_message data in
       let content :=
         or_else (trim <$> field reply_content message)
                 (trim <$> field reasoning_content message) in
       mret (or_else content None))
    (λ err,
       console_error (ErrFailedToCallQwen err);;
       mret None).

(** ** Message log loader *)

Definition unknown_message : Message :=
  {| msg_type := lit "unknown"; message := None |}.

(** The callback of [lines.map]: [JSON.parse(line)], or the placeholder
    record when that throws. *)
Definition parse_line (line : jsstr) : Message :=
  match JSON_parse_message line with
  | Some msg => msg
  | None => unknown_message
  end.

Definition loadSessionMessages (sessionPath : jsstr) : M (list Message) :=
  try_catch
    (content ← readFile sessionPath;
     let lines := split nl (trim content) in
     mret (parse_line <$> lines))
    (λ _, mret []).

(** ** Index updater *)

(** Discovery.  The inner [try] swallows every failure of the probe, so the
    outer [catch] is reached only from [readdir], before anything was
    pushed; it then returns the still empty [indexFiles]. *)
Definition findSessionsIndex : M (list jsstr) :=
  try_catch
    (projects ← readdir CONFIG.projectsDir;
     for_of projects [] (λ indexFiles project,
       let indexPath :=
         path_join CONFIG.projectsDir project (lit "sessions-index.json") in
       try_catch
         (_ ← readFile indexPath; mret (indexFiles ++ [indexPath]))
         (λ _, mret indexFiles)))
    (λ err,
       console_error (ErrReadingProjectsDir err);;
       mret []).

Record TitleResult := {
  title : jsstr;
  result_titledAt : jsstr;
  updated : bool;
}.

(** [new Date().toISOString()] *)
Definition now_iso : M jsstr := λ w,
  (Val (Date_toISOString (ticks w)), with_ticks w (S (ticks w))).

Definition processSession (entry : SessionIndexEntry) (dryRun : bool)
    : M (option TitleResult) :=
  if negb (shouldProcessSession entry) then mret None
  else
    messages ← loadSessionMessages (fullPath entry);
    let conversation := extractConversation messages in
    if bool_decide (length conversation = 0%nat) then mret None
    else
      let isRetitle := needsRetitling entry in
      let combined :=
        prepareConversationText conversation CONFIG.maxChars CONFIG.numMessages in
      let estTokens := Z.of_nat (length combined) / 4 in
      let id8 := slice (sessionId entry) 0 (Some 8) in
      console_log (LogSession isRetitle id8 (length conversation) estTokens);;
      if dryRun then
        console_log (LogDryRun isRetitle (slice (firstPrompt entry) 0 (Some 50)));;
        mret None
      else
        title ← generateTitle combined;
        if negb (truthy_opt title) then
          console_log LogFailedTitle;;
          mret None
        else
          console_log (LogTitle isRetitle (default [] title));;
          now ← now_iso;
          mret (Some {| title := default [] title;
                        result_titledAt := now;
                        updated := true |}).

(** [entry.customTitle = title; entry.titledAt = titledAt] *)
Definition set_title (entry : SessionIndexEntry) (t at_ : jsstr) : SessionIndexEntry :=
  {| sessionId := sessionId entry;
     firstPrompt := firstPrompt entry;
     projectPath := projectPath entry;
     created := created entry;
     modified := modified entry;
     messageCount := messageCount entry;
     fullPath := fullPath entry;
     customTitle := Some t;
     titledAt := Some at_ |}.

(** [index.entries.filter(p)] keeps references to the entry objects of
    [index.entries], which the loop below mutates.  A reference is
    represented by the entry's position in [index.entries]. *)
Fixpoint filter_refs {A : Type} (p : A → bool) (i : nat) (l : list A) : list nat :=
  match l with
  | [] => []
  | x :: rest =>
      if p x then i :: filter_refs p (S i) rest else filter_refs p (S i) rest
  end.

(** How many of the referenced objects satisfy [p]. *)
Definition count_refs {A : Type} (p : A → bool) (heap : list A) (refs : list nat) : nat :=
  length (List.filter (λ i, match heap !! i with Some x => p x | None => false end) refs).

(** One iteration of [for (const entry of toProcess)]: the loop state is
    the array of entry objects and [updatedCount].  The entry is read
    through its reference, and the two assignments write through it.  (A
    reference made by [filter_refs] always points into the array.) *)
Definition title_step (dryRun : bool)
    (st : list SessionIndexEntry * nat) (ref : nat)
    : M (list SessionIndexEntry * nat) :=
  match st.1 !! ref with
  | None => mret st
  | Some entry =>
      result ← processSession entry dryRun;
      match result with
      | Some r =>
          if updated r
          then mret (<[ref := set_title entry (title r) (result_titledAt r)]> st.1,
                     S st.2)
          else mret st
      | None => mret st
      end
  end.

(** [if (c) { body }] *)
Definition when (c : bool) (body : M unit) : M unit :=
  if c then body else mret tt.

Definition processIndexFile (indexPath : jsstr) (dryRun : bool) : M nat :=
  console_log (LogProcessingIndex indexPath);;
  content ← readFile indexPath;
  index ← match JSON_parse_index content with
          | Some index => mret index
          | None => throw SyntaxError
          end;
  let toProcess := filter_refs shouldProcessSession 0 (entries index) in
  let needsNewTitle :=
    count_refs (λ e, negb (truthy_opt (customTitle e))) (entries index) toProcess in
  let needsRetitle := count_refs needsRetitling (entries index) toProcess in
  when (bool_decide (0 < needsNewTitle)%nat)
       (console_log (LogFoundUntitled needsNewTitle));;
  when (bool_decide (0 < needsRetitle)%nat)
       (console_log (LogFoundRetitle needsRetitle));;
  when (bool_decide (length toProcess = 0%nat))
       (console_log (LogNoSessions (length (entries index))));;
  st ← for_of toProcess (entries index, 0%nat) (title_step dryRun);
  when (bool_decide (0 < st.2)%nat && negb dryRun)
       (writeFile indexPath
          (JSON_stringify {| version := version index; entries := st.1 |});;
        console_log (LogSaved st.2 indexPath));;
  mret st.2.

(** ** Run orchestrator *)

Definition runOnce (dryRun : bool) : M unit :=
  console_log LogBanner;;
  console_log (LogMode dryRun);;
  indexFiles ← findSessionsIndex;
  console_log (LogFoundIndexFiles (length indexFiles));;
  totalUpdated ← for_of indexFiles 0%nat (λ totalUpdated indexPath,
    n ← processIndexFile indexPath dryRun;
    mret (totalUpdated + n)%nat);
  console_log (LogDone totalUpdated).

End Titler.

(** ** [lib.ts]: the session list behind the picker

    The picker reads the same index files, turns every entry into a
    [Session], sorts the sessions by time and renders them as options.
    The code is synchronous; it is written in the same monad, over the same
    world. *)

(** What [lib.ts] needs from its host beyond [Runtime]. *)
Class Host := {
  (** [os.homedir()] *)
  homedir : jsstr;
  (** [new Date(t).toLocaleDateString()] *)
  toLocaleDateString : num → jsstr;
}.

Module Lib.

(** [entry.messageCount], named apart from the field of [Session]. *)
Definition entry_messageCount (entry : SessionIndexEntry) : Z := messageCount entry.

Record Session := {
  id : jsstr;
  title : jsstr;
  firstMessage : jsstr;
  project : jsstr;
  cwd : jsstr;
  timestamp : num;
  messageCount : Z;
}.

Record SelectOption := {
  name : jsstr;
  description : jsstr;
}.

(** *** Numbers that may be [NaN] *)

(** [a - b] *)
Definition num_sub (a b : num) : num :=
  match a, b with
  | Some x, Some y => Some (x - y)
  | _, _ => None
  end.

(** [Math.floor(a / d)] for a positive integer constant [d] *)
Definition floor_div (a : num) (d : Z) : num := (λ x, x / d) <$> a.

(** [a < b]: false when [a] is [NaN] *)
Definition num_lt (a : num) (b : Z) : bool :=
  match a with
  | Some x => x <? b
  | None => false
  end.

(** [`${a}`] for an integer or [NaN] *)
Definition num_to_string (a : num) : jsstr :=
  match a with
  | Some x => lit (pretty x)
  | None => lit "NaN"
  end.

(** *** [folderNameToPath] *)

Definition dash : N := 45%N.
Definition slash : N := 47%N.

(** [s.replace(/^-/, "/")] *)
Definition replace_leading_dash (s : jsstr) : jsstr :=
  match s with
  | c :: s' => if (c =? dash)%N then slash :: s' else s
  | [] => []
  end.

(** [s.replace(/-/g, "/")] *)
Definition replace_dashes (s : jsstr) : jsstr :=
  (λ c, if (c =? dash)%N then slash else c) <$> s.

Definition folderNameToPath (folderName : jsstr) : jsstr :=
  replace_dashes (replace_leading_dash folderName).

(** *** [truncate] *)

(** [s.replace(/\s+/g, " ")]: every maximal run of white space becomes one
    space.  [in_run] tells that the unit before was white space.  The class
    [\s] is the set of units [trim] strips. *)
Fixpoint collapse_ws (in_run : bool) (s : jsstr) : jsstr :=
  match s with
  | [] => []
  | c :: s' =>
      if isWhiteSpace c
      then (if in_run then collapse_ws true s' else 32%N :: collapse_ws true s')
      else c :: collapse_ws false s'
  end.

(** U+2026, the horizontal ellipsis *)
Definition ellipsis : N := 8230%N.

Definition truncate (str : jsstr) (maxLen : Z) : jsstr :=
  let cleaned := trim (collapse_ws false str) in
  if Z.of_nat (length cleaned) <=? maxLen then cleaned
  else slice cleaned 0 (Some (maxLen - 1)) ++ [ellipsis].

(** *** Sorting

    [sessions.sort((a, b) => b.timestamp - a.timestamp)].  The sort of the
    language is stable, and for a comparator that is a consistent order
    its result is fixed; here it is computed by insertion.  A [NaN] result
    of the comparator counts as zero, as the language says; with [NaN]
    timestamps the comparator is not consistent and the language leaves
    the order to the implementation. *)

Definition compare_desc (a b : Session) : num :=
  num_sub (timestamp b) (timestamp a).

(** the comparator puts [a] after [b] *)
Definition comes_after (a b : Session) : bool :=
  match compare_desc a b with
  | Some v => 0 <? v
  | None => false
  end.

Fixpoint insert_session (x : Session) (l : list Session) : list Session :=
  match l with
  | [] => [x]
  | y :: l' => if comes_after x y then y :: insert_session x l' else x :: l
  end.

Definition sort_desc (l : list Session) : list Session :=
  foldr insert_session [] l.

(** [existsSync(path)]: something, a file or a directory, is at [path] *)
Definition existsSync (path : jsstr) : M bool := λ w,
  (Val (bool_decide (is_Some (files w !! path) ∨ is_Some (dirs w !! path))), w).

(** [s.replace(pat, rep)] for a string pattern: the first occurrence *)
Fixpoint replace_first (pat rep s : jsstr) : jsstr :=
  if bool_decide (take (length pat) s = pat) then rep ++ drop (length pat) s
  else match s with
       | [] => []
       | c :: s' => c :: replace_first pat rep s'
       end.

Section WithHost.

Context {rt : Runtime} {host : Host}.

(** The object pushed for one entry; [entry.customTitle || entry.firstPrompt]
    falls back to the prompt for an absent or empty title. *)
Definition session_of (cwdPath : jsstr) (entry : SessionIndexEntry) : Session :=
  {| id := sessionId entry;
     title := if truthy_opt (customTitle entry)
              then default [] (customTitle entry)
              else firstPrompt entry;
     firstMessage := firstPrompt entry;
     project := projectPath entry;
     cwd := cwdPath;
     timestamp := Date_getTime (modified entry);
     messageCount := entry_messageCount entry |}.

(** The revision of [lib.ts] with [folderNameToPath]; the later revision
    differs in one field, passing [entry.projectPath] as [cwd]. *)
Definition parseSessionsFromDir (projectsDir : jsstr) : M (list Session) :=
  found ← existsSync projectsDir;
  if negb found then mret []
  else
    projectDirs ← readdir projectsDir;
    sessions ← for_of projectDirs [] (λ sessions dir,
      let indexPath := path_join projectsDir dir (lit "sessions-index.json") in
      found ← existsSync indexPath;
      if negb found then mret sessions
      else
        try_catch
          (content ← readFile indexPath;
           index ← match JSON_parse_index content with
                   | Some index => mret index
                   | None => throw SyntaxError
                   end;
           let cwdPath := folderNameToPath dir in
           mret (foldl (λ sessions entry, sessions ++ [session_of cwdPath entry])
                       sessions (entries index)))
          (λ _, mret sessions));
    mret (sort_desc sessions).

Definition parseHistory : M (list Session) :=
  parseSessionsFromDir (path_join homedir (lit ".claude") (lit "projects")).

Definition formatRelativeTime (timestamp now : num) : jsstr :=
  let diff := num_sub now timestamp in
  let minutes := floor_div diff 60000 in
  let hours := floor_div diff 3600000 in
  let days := floor_div diff 86400000 in
  if num_lt minutes 1 then lit "just now"
  else if num_lt minutes 60 then num_to_string minutes ++ lit "m ago"
  else if num_lt hours 24 then num_to_string hours ++ lit "h ago"
  else if num_lt days 7 then num_to_string days ++ lit "d ago"
  else toLocaleDateString timestamp.

(** " · ", with U+00B7 in the middle *)
Definition middle_dot : jsstr := [32%N; 183%N; 32%N].

Definition sessionsToOptions (sessions : list Session) (now : num)
    : list SelectOption :=
  (λ s, {| name := truncate (title s) 60;
           description :=
             replace_first homedir (lit "~") (project s)
             ++ middle_dot ++ num_to_string (Some (messageCount s))
             ++ lit " msgs" ++ middle_dot
             ++ formatRelativeTime (timestamp s) now |}) <$> sessions.

(** *** Specification-level definitions for [lib.ts] *)

(** What one project directory contributes: the sessions of its index, or
    nothing when the index is missing, unreadable or malformed. *)
Definition index_sessions (w : World) (projectsDir dir : jsstr) : list Session :=
  match files w !! path_join projectsDir dir (lit "sessions-index.json") with
  | Some content =>
      match JSON_parse_index content with
      | Some index => session_of (folderNameToPath dir) <$> entries index
      | None => []
      end
  | None => []
  end.

End WithHost.

(** Every white space unit is a space, no two are adjacent, and, when
    [after_space] is set, the first unit is not white space. *)
Fixpoint single_spaced (after_space : bool) (s : jsstr) : bool :=
  match s with
  | [] => true
  | c :: s' =>
      if isWhiteSpace c
      then (c =? 32)%N && negb after_space && single_spaced true s'
      else single_spaced false s'
  end.

(** The folder name the assistant gives to a project path: every slash
    becomes a dash. *)
Definition folder_name_of (path : jsstr) : jsstr :=
  (λ c, if (c =? slash)%N then dash else c) <$> path.

(** Newest first; [NaN] is not comparable. *)
Definition not_older (a b : Session) : Prop :=
  match timestamp a, timestamp b with
  | Some x, Some y => y ≤ x
  | _, _ => False
  end.

End Lib.

(** ** Specification-level definitions

    The definitions below are not translations of source functions: they
    follow the wording of the specification, or describe a pass over an
    index as a pure function of what it starts from.  The theorems relate
    them to the code. *)

(** The last [n] elements of a list. *)
Definition last_n {A : Type} (n : nat) (l : list A) : list A :=
  drop (length l - n) l.

(** Empty or made of white space only. *)
Definition whitespace_only (s : jsstr) : Prop :=
  Forall (λ c, isWhiteSpace c = true) s.

(** The prompt of a degenerate or placeholder session. *)
Definition degenerate_prompt (s : jsstr) : Prop :=
  whitespace_only s ∨ s = lit "No prompt".

(** An optional field that is not there at all. *)
Definition absent (o : option jsstr) : Prop := o = None.

(** An optional field that is not there, or holds the empty string. *)
Definition absent_or_empty (o : option jsstr) : Prop := o = None ∨ o = Some [].

(** The first block of type "text" whose text is non-empty after trimming. *)
Definition qualifying_block (b : Block) : bool :=
  bool_decide (block_type b = lit "text")
  && match block_text b with
     | Some t => negb (bool_decide (trim t = []))
     | None => false
     end.

Definition first_text (bs : list Block) : option jsstr :=
  match List.find qualifying_block bs with
  | Some b => block_text b
  | None => None
  end.

(** The lines one message contributes to the excerpt, per the
    specification of the excerpt builder. *)
Definition excerpt_lines (msg : Message) : list jsstr :=
  if bool_decide (msg_type msg = lit "user") then
    match message_content msg with
    | Some (CString s) =>
        if bool_decide (trim s = []) then [] else [lit "User: " ++ take 300 s]
    | _ => []
    end
  else if bool_decide (msg_type msg = lit "assistant") then
    match message_content msg with
    | Some (CBlocks bs) =>
        match first_text bs with
        | Some t => [lit "Assistant: " ++ take 200 t]
        | None => []
        end
    | _ => []
    end
  else [].

Section Specification.

Context {rt : Runtime}.

(** [a] is a timestamp strictly later than [b]. *)
Definition strictly_later (a b : jsstr) : Prop :=
  match Date_getTime a, Date_getTime b with
  | Some x, Some y => y < x
  | _, _ => False
  end.

(** The eligibility rules as the specification words them, for a given
    reading [missing] of "customTitle is absent". *)
Definition needsRetitling_rule (missing : option jsstr → Prop)
    (e : SessionIndexEntry) : Prop :=
  (missing (customTitle e) ∨ absent (titledAt e) → needsRetitling e = false)
  ∧ (¬ missing (customTitle e) → ¬ absent (titledAt e) →
     (needsRetitling e = true
      ↔ strictly_later (modified e) (default [] (titledAt e)))).

Definition shouldProcessSession_rule (missing : option jsstr → Prop)
    (e : SessionIndexEntry) : Prop :=
  (degenerate_prompt (firstPrompt e) → shouldProcessSession e = false)
  ∧ (messageCount e < 3 → shouldProcessSession e = false)
  ∧ (¬ degenerate_prompt (firstPrompt e) → 3 ≤ messageCount e →
     (shouldProcessSession e = true
      ↔ missing (customTitle e) ∨ needsRetitling e = true)).

(** The legacy rule, for a given reading [has_title] of "customTitle is
    set": such an entry without [titledAt] is never selected. *)
Definition legacy_rule (has_title : option jsstr → Prop)
    (e : SessionIndexEntry) : Prop :=
  has_title (customTitle e) → absent (titledAt e) →
  shouldProcessSession e = false.

(** The excerpt rule for [prepareConversationText]. *)
Definition prepareConversationText_rule
    (c : list jsstr) (maxChars numMessages : Z) : Prop :=
  let joined :=
    join [nl] (last_n (Z.to_nat (Z.min numMessages (Z.of_nat (length c)))) c) in
  let result := prepareConversationText c maxChars numMessages in
  (Z.of_nat (length joined) ≤ maxChars → result = joined)
  ∧ (maxChars < Z.of_nat (length joined) →
     Z.of_nat (length result) = maxChars
     ∧ take 3 result = lit "..."
     ∧ drop 3 result = last_n (Z.to_nat (maxChars - 3)) joined).

(** *** What the title generator is specified to return *)

(** A string that is there and not empty. *)
Definition nonempty (o : option jsstr) : option jsstr :=
  match o with
  | Some (c :: s) => Some (c :: s)
  | _ => None
  end.

(** On a successful response: the first choice's content, trimmed; if that
    is empty or absent, the trimmed reasoning field; null if both are. *)
Definition reply_title (body : option Completion) : option jsstr :=
  match body with
  | Some data =>
      let message := first_choice_message data in
      match nonempty (trim <$> field reply_content message) with
      | Some t => Some t
      | None => nonempty (trim <$> field reasoning_content message)
      end
  | None => None
  end.

(** Null on a transport failure and on a non-success status. *)
Definition generated_title (o : FetchOutcome) : option jsstr :=
  match o with
  | Rejected => None
  | Response status body =>
      if bool_decide (200 ≤ status ≤ 299) then reply_title body else None
  end.

(** *** A functional account of one pass over an index

    The pass is described over the file system [fs] it starts from, the
    number [k] of requests already sent and the number [t] of clock
    readings already taken. *)

(** The messages of the log at [path]; a missing log has none. *)
Definition log_messages (fs : gmap jsstr jsstr) (path : jsstr) : list Message :=
  match fs !! path with
  | Some content => parse_line <$> split nl (trim content)
  | None => []
  end.

Definition excerpt (fs : gmap jsstr jsstr) (e : SessionIndexEntry) : list jsstr :=
  extractConversation (log_messages fs (fullPath e)).

(** The bounded text given to the title generator for the entry, and the
    prompt built from it. *)
Definition excerpt_text (fs : gmap jsstr jsstr) (e : SessionIndexEntry) : jsstr :=
  prepareConversationText (excerpt fs e) CONFIG.maxChars CONFIG.numMessages.

Definition prompt_of (fs : gmap jsstr jsstr) (e : SessionIndexEntry) : jsstr :=
  TITLE_PROMPT (excerpt_text fs e).

(** The entry is a candidate with a non-empty excerpt and the run is live:
    the only case in which the title generator is called. *)
Definition asks_model (dryRun : bool) (fs : gmap jsstr jsstr)
    (e : SessionIndexEntry) : bool :=
  shouldProcessSession e && negb (bool_decide (excerpt fs e = [])) && negb dryRun.

(** The title the entry receives when its turn comes as request [k]. *)
Definition new_title (dryRun : bool) (fs : gmap jsstr jsstr) (k : nat)
    (e : SessionIndexEntry) : option jsstr :=
  if asks_model dryRun fs e
  then generated_title (fetch_outcome k (prompt_of fs e))
  else None.

(** How many requests the entries of [es] cause. *)
Definition asked (dryRun : bool) (fs : gmap jsstr jsstr)
    (es : list SessionIndexEntry) : nat :=
  length (List.filter (asks_model dryRun fs) es).

Fixpoint retitled (dryRun : bool) (fs : gmap jsstr jsstr) (k t : nat)
    (es : list SessionIndexEntry) : list SessionIndexEntry :=
  match es with
  | [] => []
  | e :: rest =>
      let k' := if asks_model dryRun fs e then S k else k in
      match new_title dryRun fs k e with
      | Some ttl =>
          set_title e ttl (Date_toISOString t) :: retitled dryRun fs k' (S t) rest
      | None => e :: retitled dryRun fs k' t rest
      end
  end.

Fixpoint retitled_count (dryRun : bool) (fs : gmap jsstr jsstr) (k : nat)
    (es : list SessionIndexEntry) : nat :=
  match es with
  | [] => 0
  | e :: rest =>
      let k' := if asks_model dryRun fs e then S k else k in
      match new_title dryRun fs k e with
      | Some _ => S (retitled_count dryRun fs k' rest)
      | None => retitled_count dryRun fs k' rest
      end
  end.

(** The prompts sent for the entries of [es], in order. *)
Definition prompts_sent (dryRun : bool) (fs : gmap jsstr jsstr)
    (es : list SessionIndexEntry) : list jsstr :=
  prompt_of fs <$> List.filter (asks_model dryRun fs) es.

(** The index files discovery finds: one per listed project whose
    [sessions-index.json] can be read. *)
Definition index_path (project : jsstr) : jsstr :=
  path_join CONFIG.projectsDir project (lit "sessions-index.json").

Definition discovered (w : World) : list jsstr :=
  match dirs w !! CONFIG.projectsDir with
  | Some projects =>
      List.filter (λ p, bool_decide (is_Some (files w !! p))) (index_path <$> projects)
  | None => []
  end.

(** Files, directories and the record of writes are the same in both
    worlds. *)
Definition same_disk (w w' : World) : Prop :=
  files w' = files w ∧ dirs w' = dirs w ∧ writes w' = writes w.

(** Nothing but the console differs. *)
Definition same_but_console (w w' : World) : Prop :=
  same_disk w w' ∧ requests w' = requests w ∧ ticks w' = ticks w.

End Specification.

(** ** A concrete runtime for examples

    A small, fully computable instance of [Runtime], used to run the
    definitions on concrete inputs.  Dates are the fixed-width UTC form
    [YYYY-MM-DDTHH:MM:SSZ]; log lines use a two-letter tag; index files are
    looked up in a table of known documents. *)

Module Demo.

Definition digit (c : N) : option Z :=
  if ((48 <=? c) && (c <=? 57))%N then Some (Z.of_N c - 48) else None.

Fixpoint decimal (acc : Z) (s : jsstr) : option Z :=
  match s with
  | [] => Some acc
  | c :: s' =>
      match digit c with
      | Some d => decimal (10 * acc + d) s'
      | None => None
      end
  end.

(** Days since 1970-01-01 of a proleptic Gregorian date. *)
Definition days_from_civil (y m d : Z) : Z :=
  let y' := if m <=? 2 then y - 1 else y in
  let era := y' / 400 in
  let yoe := y' - era * 400 in
  let doy := (153 * (if m >? 2 then m - 3 else m + 9) + 2) / 5 + d - 1 in
  let doe := yoe * 365 + yoe / 4 - yoe / 100 + doy in
  era * 146097 + doe - 719468.

Definition getTime (s : jsstr) : num :=
  if bool_decide (length s = 20%nat
                  ∧ take 1 (drop 4 s) = lit "-" ∧ take 1 (drop 7 s) = lit "-"
                  ∧ take 1 (drop 10 s) = lit "T"
                  ∧ take 1 (drop 13 s) = lit ":" ∧ take 1 (drop 16 s) = lit ":"
                  ∧ drop 19 s = lit "Z")
  then
    y ← decimal 0 (take 4 s);
    mo ← decimal 0 (take 2 (drop 5 s));
    d ← decimal 0 (take 2 (drop 8 s));
    h ← decimal 0 (take 2 (drop 11 s));
    mi ← decimal 0 (take 2 (drop 14 s));
    sec ← decimal 0 (take 2 (drop 17 s));
    Some ((((days_from_civil y mo d * 24 + h) * 60 + mi) * 60 + sec) * 1000)
  else None.

Definition user_message (text : jsstr) : Message :=
  {| msg_type := lit "user";
     message := Some {| role := Some (lit "user"); content := Some (CString text) |} |}.

Definition assistant_message (blocks : list Block) : Message :=
  {| msg_type := lit "assistant";
     message := Some {| role := Some (lit "assistant"); content := Some (CBlocks blocks) |} |}.

Definition text_block (text : jsstr) : Block :=
  {| block_type := lit "text"; block_text := Some text |}.

Definition tool_use_block (text : jsstr) : Block :=
  {| block_type := lit "tool_use"; block_text := Some text |}.

Definition other_message (type : jsstr) : Message :=
  {| msg_type := type; message := None |}.

(** Log lines: [U:text] is a user message, [A:text] an assistant message
    with one text block, [S:] a summary record; anything else does not
    parse. *)
Definition parse_message (line : jsstr) : option Message :=
  if bool_decide (take 2 line = lit "U:") then Some (user_message (drop 2 line))
  else if bool_decide (take 2 line = lit "A:")
       then Some (assistant_message [text_block (drop 2 line)])
  else if bool_decide (take 2 line = lit "S:") then Some (other_message (lit "summary"))
  else None.

Definition entry (id prompt : string) (count : Z) (log modified_ : string)
    (title titled : option string) : SessionIndexEntry :=
  {| sessionId := lit id;
     firstPrompt := lit prompt;
     projectPath := lit "/home/user";
     created := lit "2026-01-01T10:00:00Z";
     modified := lit modified_;
     messageCount := count;
     fullPath := lit log;
     customTitle := lit <$> title;
     titledAt := lit <$> titled |}.

(** The entry of the unit tests. *)
Definition baseEntry : SessionIndexEntry :=
  entry "test-123" "Hello world" 10 "/path/to/session.jsonl"
        "2026-01-01T12:00:00Z" None None.

Definition docker_session : SessionIndexEntry :=
  entry "docker-0001" "How do I set up Docker?" 3 "/logs/docker.jsonl"
        "2026-01-01T12:00:00Z" None None.

Definition legacy_session : SessionIndexEntry :=
  entry "legacy-0001" "An old session" 8 "/logs/legacy.jsonl"
        "2026-01-01T12:00:00Z" (Some "Hand-written title") None.

Definition short_session : SessionIndexEntry :=
  entry "short-0001" "Hi" 2 "/logs/short.jsonl"
        "2026-01-01T12:00:00Z" None None.

Definition lost_session : SessionIndexEntry :=
  entry "lost-0001" "Where is my log?" 5 "/logs/lost.jsonl"
        "2026-01-01T12:00:00Z" None None.

Definition stale_session : SessionIndexEntry :=
  entry "stale-0001" "Refactor the parser" 12 "/logs/stale.jsonl"
        "2026-01-01T16:00:00Z" (Some "Old Title") (Some "2026-01-01T14:00:00Z").

(** An entry whose title is present but empty. *)
Definition blank_title_session : SessionIndexEntry :=
  entry "blank-0001" "Hello world" 10 "/path/to/session.jsonl"
        "2026-01-01T16:00:00Z" (Some EmptyString) (Some "2026-01-01T14:00:00Z").

(** The same without a [titledAt]. *)
Definition blank_legacy_session : SessionIndexEntry :=
  entry "blank-0002" "Hello world" 10 "/logs/docker.jsonl"
        "2026-01-01T16:00:00Z" (Some EmptyString) None.

Definition blank_index : SessionIndex :=
  {| version := 1; entries := [blank_legacy_session] |}.

Definition good_index : SessionIndex :=
  {| version := 1;
     entries := [legacy_session; docker_session; short_session;
                 lost_session; stale_session] |}.

Definition parse_index (text : jsstr) : option SessionIndex :=
  if bool_decide (text = lit "{good index}") then Some good_index
  else if bool_decide (text = lit "{blank index}") then Some blank_index
  else None.

(** A stand-in printer: the identifier, title and title time of each
    entry, one entry per line. *)
Definition stringify (index : SessionIndex) : jsstr :=
  join [nl] ((λ e, sessionId e ++ lit "=" ++ default (lit "-") (customTitle e)
                   ++ lit "@" ++ default (lit "-") (titledAt e))
             <$> entries index).

Definition join3 (a b c : jsstr) : jsstr := a ++ lit "/" ++ b ++ lit "/" ++ c.

Definition reply (content_ reasoning : option string) : FetchOutcome :=
  Response 200 (Some {| choices := Some [
    {| choice_message := Some {| reply_content := lit <$> content_;
                                 reasoning_content := lit <$> reasoning |} |} ] |}).

(** The endpoint answers the first request with a title, the second in the
    reasoning field, the third with a server error, and is unreachable
    afterwards. *)
Definition endpoint (k : nat) (prompt : jsstr) : FetchOutcome :=
  match k with
  | 0%nat => reply (Some "  Docker Setup Help ") None
  | 1%nat => reply (Some "   ") (Some "Parser Refactoring Plan")
  | 2%nat => Response 500 None
  | _ => Rejected
  end.

Definition clock (k : nat) : jsstr :=
  lit "2026-01-02T00:00:0" ++ [(48 + N.of_nat (k mod 10))%N] ++ lit "Z".

Definition runtime : Runtime :=
  {| Date_getTime := getTime;
     JSON_parse_message := parse_message;
     JSON_parse_index := parse_index;
     JSON_stringify := stringify;
     path_join := join3;
     fetch_outcome := endpoint;
     Date_toISOString := clock |}.

Definition bad_index_path : jsstr :=
  join3 CONFIG.projectsDir (lit "-home-user-broken") (lit "sessions-index.json").

Definition good_index_path : jsstr :=
  join3 CONFIG.projectsDir (lit "-home-user-project") (lit "sessions-index.json").

(** An index file outside the projects directory. *)
Definition blank_index_path : jsstr := lit "/tmp/blank/sessions-index.json".

Definition world : World :=
  {| files := list_to_map [
       (bad_index_path, lit "not valid json");
       (good_index_path, lit "{good index}");
       (blank_index_path, lit "{blank index}");
       (lit "/logs/docker.jsonl",
        join [nl] [lit "S:"; lit "U:How do I set up Docker?";
                   lit "A:Install it with apt."; lit "U:Thanks, that worked!"]);
       (lit "/logs/stale.jsonl",
        join [nl] [lit "U:Refactor the parser"; lit "garbage"; lit "A:Here is a plan."]);
       (lit "/logs/legacy.jsonl", lit "U:An old session");
       (lit "/logs/empty.jsonl", []) ];
     dirs := {[ CONFIG.projectsDir :=
                  [lit "-home-user-broken"; lit "-home-user-noindex";
                   lit "-home-user-project"] ]};
     requests := [];
     writes := [];
     ticks := 0;
     console := [] |}.

(** The host of the picker in the examples. *)
Definition host : Host :=
  {| homedir := lit "/home/user";
     toLocaleDateString := λ t,
       match t with
       | Some _ => lit "1/9/2026"
       | None => lit "Invalid Date"
       end |}.

End Demo.

(** ** Facts about the JavaScript primitives *)

Section JsFacts.

Context {A : Type}.
Implicit Types l : list A.

Lemma slice_prefix l (n : Z) :
  0 ≤ n → slice l 0 (Some n) = take (Z.to_nat n) l.
Proof.
  intros Hn. unfold slice, rel_index.
  change (0 <? 0) with false. cbv iota.
  destruct (n <? 0) eqn:E; [apply Z.ltb_lt in E; lia|].
  replace (Z.min 0 (Z.of_nat (length l))) with 0 by lia.
  change (Z.to_nat 0) with 0%nat. rewrite drop_0, Z.sub_0_r.
  destruct (decide (n ≤ Z.of_nat (length l))).
  - by rewrite Z.min_l by lia.
  - rewrite Z.min_r by lia. rewrite Nat2Z.id.
    rewrite !take_ge; [done|lia|lia].
Qed.

Lemma slice_suffix l (k : Z) :
  1 ≤ k → slice l (- k) None = last_n (Z.to_nat k) l.
Proof.
  intros Hk. unfold slice, rel_index, last_n.
  destruct (- k <? 0) eqn:E; [|apply Z.ltb_ge in E; lia].
  replace (Z.to_nat (Z.max (Z.of_nat (length l) + - k) 0))
    with (length l - Z.to_nat k)%nat by lia.
  apply take_ge. rewrite length_drop. lia.
Qed.

Lemma slice_zero l : slice l 0 None = l.
Proof.
  unfold slice, rel_index.
  change (0 <? 0) with false. cbv iota.
  replace (Z.min 0 (Z.of_nat (length l))) with 0 by lia.
  change (Z.to_nat 0) with 0%nat.
  rewrite drop_0, Z.sub_0_r, Nat2Z.id. by apply take_ge.
Qed.

Lemma last_n_length l (n : nat) :
  (n ≤ length l)%nat → length (last_n n l) = n.
Proof. intros. unfold last_n. rewrite length_drop. lia. Qed.

End JsFacts.

Lemma trimStart_nil_iff s : trimStart s = [] ↔ whitespace_only s.
Proof.
  unfold whitespace_only. induction s as [|c s IH]; simpl.
  - split; [constructor|done].
  - destruct (isWhiteSpace c) eqn:E.
    + rewrite IH. split; [by constructor|by inversion 1].
    + split; [done|]. inversion 1; congruence.
Qed.

Lemma trimStart_snoc_keep s c :
  isWhiteSpace c = false → trimStart (s ++ [c]) ≠ [].
Proof.
  intros Hc. induction s as [|d s IH]; simpl.
  - by rewrite Hc.
  - destruct (isWhiteSpace d); [done|discriminate].
Qed.

Lemma trimStart_head s c s' :
  trimStart s = c :: s' → isWhiteSpace c = false.
Proof.
  induction s as [|d s IH]; simpl; [done|].
  destruct (isWhiteSpace d) eqn:E; [done|]. by intros [= -> _].
Qed.

Lemma trim_nil_iff s : trim s = [] ↔ whitespace_only s.
Proof.
  rewrite <- trimStart_nil_iff. unfold trim, trimEnd.
  destruct (trimStart s) as [|c s'] eqn:E; [done|].
  split; [|done]. intros H%(f_equal reverse).
  rewrite reverse_involutive, reverse_nil, reverse_cons in H.
  apply trimStart_snoc_keep in H; [done|by eapply trimStart_head].
Qed.

Lemma truthy_trim_false s : truthy (trim s) = false ↔ whitespace_only s.
Proof. rewrite <- trim_nil_iff. by destruct (trim s). Qed.

Lemma truthy_opt_false o : truthy_opt o = false ↔ absent_or_empty o.
Proof.
  unfold absent_or_empty. destruct o as [[|c s]|]; simpl.
  - split; auto.
  - split; [done|]. intros [H|H]; discriminate H.
  - split; auto.
Qed.

Lemma degenerate_prompt_test s :
  degenerate_prompt s
  ↔ negb (truthy (trim s)) || bool_decide (s = lit "No prompt") = true.
Proof.
  unfold degenerate_prompt.
  rewrite orb_true_iff, negb_true_iff, truthy_trim_false, bool_decide_eq_true.
  done.
Qed.

(** ** The excerpt builder *)

Lemma push_first_text_spec conversation bs :
  push_first_text conversation bs
  = conversation ++ match first_text bs with
                    | Some t => [lit "Assistant: " ++ take 200 t]
                    | None => []
                    end.
Proof.
  unfold first_text. induction bs as [|b bs IH]; cbn.
  - by rewrite app_nil_r.
  - unfold qualifying_block.
    destruct (bool_decide (block_type b = lit "text")); cbn; [|done].
    destruct (block_text b) as [t|] eqn:Hb; cbn; [|done].
    destruct (trim t) eqn:E; cbn; [done|].
    by rewrite Hb, slice_prefix by lia.
Qed.

Lemma extract_step_spec conversation msg :
  extract_step conversation msg = conversation ++ excerpt_lines msg.
Proof.
  unfold extract_step, excerpt_lines.
  repeat case_bool_decide; try by rewrite app_nil_r.
  - destruct (message_content msg) as [[s|bs]|]; try by rewrite app_nil_r.
    destruct (trim s) eqn:E; cbn.
    + by rewrite app_nil_r.
    + by rewrite slice_prefix by lia.
  - destruct (message_content msg) as [[s|bs]|]; try by rewrite app_nil_r.
    apply push_first_text_spec.
Qed.

Lemma foldl_extract_step conversation messages :
  foldl extract_step conversation messages
  = conversation ++ concat (excerpt_lines <$> messages).
Proof.
  revert conversation. induction messages as [|m ms IH]; intros acc; cbn.
  - by rewrite app_nil_r.
  - by rewrite IH, extract_step_spec, <- app_assoc.
Qed.

(** C5: [extractConversation] emits, in message order, exactly the lines the
    specification assigns to each message: for a "user" message whose
    content is a string that is non-empty after trimming, the line "User: "
    followed by the first 300 code units of the content; for an "assistant"
    message whose content is an array of blocks, the line "Assistant: "
    followed by the first 200 code units of the text of the first block of
    type "text" with non-empty trimmed text (at most one line per message);
    and nothing for any other message. *)
Theorem extractConversation_spec (messages : list Message) :
  extractConversation messages = concat (excerpt_lines <$> messages)
  ∧ Forall (λ msg, (length (excerpt_lines msg) ≤ 1)%nat) messages.
Proof.
  split.
  - unfold extractConversation. by rewrite foldl_extract_step.
  - apply Forall_forall. intros msg _. unfold excerpt_lines.
    repeat (case_bool_decide || case_match); cbn; lia.
Qed.

(** The mixed conversation of the end-to-end test: summary and snapshot
    records and the tool-use block contribute nothing. *)
Example extractConversation_end_to_end :
  extractConversation
    [ Demo.other_message (lit "summary");
      Demo.other_message (lit "file-history-snapshot");
      Demo.user_message (lit "Can you help me with Docker?");
      Demo.assistant_message [Demo.text_block (lit "Sure! What do you need help with?")];
      Demo.user_message (lit "How do I run a container?");
      Demo.assistant_message [Demo.tool_use_block (lit "bash");
                              Demo.text_block (lit "Use docker run <image>")];
      Demo.user_message (lit "Thanks!") ]
  = [ lit "User: Can you help me with Docker?";
      lit "Assistant: Sure! What do you need help with?";
      lit "User: How do I run a container?";
      lit "Assistant: Use docker run <image>";
      lit "User: Thanks!" ].
Proof. vm_compute. reflexivity. Qed.

Example extractConversation_skips_blank :
  extractConversation
    [ Demo.user_message []; Demo.user_message (lit "   ");
      Demo.user_message (lit "Valid") ]
  = [ lit "User: Valid" ].
Proof. vm_compute. reflexivity. Qed.

(** ** [prepareConversationText] *)

(** With [numMessages = 0] every entry is kept: [slice(-0)] is
    [slice(0)]. *)
Lemma prepareConversationText_zero (c : list jsstr) (maxChars : Z) :
  Z.of_nat (length (join [nl] c)) ≤ maxChars →
  prepareConversationText c maxChars 0 = join [nl] c.
Proof.
  intros Hle. unfold prepareConversationText.
  change (- 0) with 0. rewrite slice_zero.
  destruct (Z.of_nat (length (join [nl] c)) >? maxChars) eqn:E; [|done].
  apply Z.gtb_lt in E. lia.
Qed.

(** C2, as stated, fails.  For [maxChars = 2] and a join of six units no
    string is both of length 2 and starts with "..."; the code returns
    "...bcdef".  With [numMessages = 0] the code keeps every entry instead
    of none, with [numMessages = -1] it drops the first entry, and with
    [maxChars = 3] the truncated text is "..." followed by the whole
    join. *)
Lemma prepareConversationText_rule_fails :
  ¬ prepareConversationText_rule [lit "abcdef"] 2 1
  ∧ ¬ prepareConversationText_rule [lit "a"; lit "b"] 1000 0
  ∧ ¬ prepareConversationText_rule [lit "a"; lit "b"; lit "c"] 1000 (-1)
  ∧ ¬ prepareConversationText_rule [lit "abcdef"] 3 1.
Proof.
  split_and!.
  - intros [_ H]. specialize (H ltac:(vm_compute; reflexivity)).
    destruct H as [H _]. vm_compute in H. discriminate.
  - intros [H _]. specialize (H ltac:(vm_compute; discriminate)).
    vm_compute in H. discriminate.
  - intros [H _]. specialize (H ltac:(vm_compute; discriminate)).
    vm_compute in H. discriminate.
  - intros [_ H]. specialize (H ltac:(vm_compute; reflexivity)).
    destruct H as [H _]. vm_compute in H. discriminate.
Qed.

(** C2, amended: for [numMessages ≥ 1] the result is the last
    [min(numMessages, len(c))] entries of [c] joined by a newline when that
    join is at most [maxChars] long; otherwise, for [maxChars > 3], it has
    length exactly [maxChars], starts with "..." and ends with the last
    [maxChars - 3] code units of the join. *)
Theorem prepareConversationText_spec (c : list jsstr) (maxChars numMessages : Z) :
  1 ≤ numMessages →
  let joined :=
    join [nl] (last_n (Z.to_nat (Z.min numMessages (Z.of_nat (length c)))) c) in
  let result := prepareConversationText c maxChars numMessages in
  (Z.of_nat (length joined) ≤ maxChars → result = joined)
  ∧ (maxChars < Z.of_nat (length joined) → 3 < maxChars →
     Z.of_nat (length result) = maxChars
     ∧ take 3 result = lit "..."
     ∧ drop 3 result = last_n (Z.to_nat (maxChars - 3)) joined).
Proof.
  intros Hn joined result.
  assert (Hrecent : slice c (- numMessages) None
                    = last_n (Z.to_nat (Z.min numMessages (Z.of_nat (length c)))) c).
  { rewrite slice_suffix by done. unfold last_n. f_equal. lia. }
  subst result. unfold prepareConversationText. rewrite Hrecent. fold joined.
  split.
  - intros Hle. destruct (Z.of_nat (length joined) >? maxChars) eqn:E; [|done].
    apply Z.gtb_lt in E. lia.
  - intros Hgt Hmax.
    destruct (Z.of_nat (length joined) >? maxChars) eqn:E;
      [|rewrite Z.gtb_ltb in E; apply Z.ltb_ge in E; lia].
    rewrite slice_suffix by lia.
    split_and!.
    + rewrite length_app, last_n_length by lia.
      change (length (lit "...")) with 3%nat. lia.
    + done.
    + done.
Qed.

(** The unit tests of the suite: the last three of five entries, and fewer
    entries than asked for. *)
Example prepareConversationText_last_three :
  prepareConversationText
    [lit "msg1"; lit "msg2"; lit "msg3"; lit "msg4"; lit "msg5"] 1000 3
  = lit "msg3" ++ [nl] ++ lit "msg4" ++ [nl] ++ lit "msg5".
Proof. vm_compute. reflexivity. Qed.

Example prepareConversationText_fewer :
  prepareConversationText [lit "msg1"; lit "msg2"] 1000 10
  = lit "msg1" ++ [nl] ++ lit "msg2".
Proof. vm_compute. reflexivity. Qed.

(** The truncation test of the suite: three entries of 100 units, cut to
    150. *)
Lemma prepareConversationText_spec_witness :
  let c := [replicate 100 97%N; replicate 100 98%N; replicate 100 99%N] in
  let result := prepareConversationText c 150 10 in
  Z.of_nat (length result) = 150
  ∧ take 3 result = lit "..."
  ∧ drop 3 result = last_n 147 (join [nl] c).
Proof.
  intros c result.
  destruct (prepareConversationText_spec c 150 10 ltac:(lia)) as [_ H].
  apply H; [vm_compute; reflexivity | lia].
Defined.

(** ** The eligibility policy *)

Section EligibilityFacts.

Context {rt : Runtime}.

Lemma num_gt_true_iff (a b : jsstr) :
  num_gt (Date_getTime a) (Date_getTime b) = true ↔ strictly_later a b.
Proof.
  unfold num_gt, strictly_later.
  destruct (Date_getTime a), (Date_getTime b); try (split; [discriminate|done]).
  apply bool_decide_eq_true.
Qed.

(** C4, amended: [needsRetitling e] is false whenever [customTitle] is
    absent or the empty string, or [titledAt] is absent; when [customTitle]
    is a non-empty string and [titledAt] is present it is true if and only
    if the [modified] timestamp is strictly later than the [titledAt]
    timestamp.  (The empty string is not a date: [getTime] of it is
    [NaN].) *)
Theorem needsRetitling_spec (e : SessionIndexEntry) :
  Date_getTime [] = None →
  needsRetitling_rule absent_or_empty e.
Proof.
  intros Hnan. unfold needsRetitling_rule, needsRetitling, absent. split.
  - intros [H%truthy_opt_false| ->]; [by rewrite H|].
    by destruct (truthy_opt (customTitle e)).
  - intros H1 H2.
    destruct (truthy_opt (customTitle e)) eqn:E1;
      [|by apply truthy_opt_false in E1].
    destruct (titledAt e) as [[|c s]|] eqn:E2; [| |done]; cbn.
    + unfold strictly_later. rewrite Hnan.
      split; [done|]. by destruct (Date_getTime (modified e)).
    + apply num_gt_true_iff.
Qed.

(** C3, amended: [shouldProcessSession e] is false for an empty,
    whitespace-only or "No prompt" [firstPrompt] and for
    [messageCount < 3]; otherwise (3 qualifying) it is true if and only if
    [customTitle] is absent or the empty string, or [needsRetitling e]. *)
Theorem shouldProcessSession_spec (e : SessionIndexEntry) :
  shouldProcessSession_rule absent_or_empty e.
Proof.
  unfold shouldProcessSession_rule, shouldProcessSession. split_and!.
  - intros H%degenerate_prompt_test. by rewrite H.
  - intros H%Z.ltb_lt. rewrite H. by destruct (_ || _).
  - intros Hp Hc.
    destruct (negb (truthy (trim (firstPrompt e))) || _) eqn:E;
      [by apply degenerate_prompt_test in E|].
    destruct (messageCount e <? 3) eqn:E3; [apply Z.ltb_lt in E3; lia|].
    destruct (truthy_opt (customTitle e)) eqn:Et; cbn.
    + destruct (needsRetitling e); split; auto.
      intros [H%truthy_opt_false|H]; congruence.
    + apply truthy_opt_false in Et. split; auto.
Qed.

End EligibilityFacts.

Section EligibilityExamples.

Local Existing Instance Demo.runtime.

(** C4, as stated, fails: an entry whose [customTitle] is present but
    empty, titled at 14:00 and modified at 16:00, is not reported as
    needing a retitle. *)
Lemma needsRetitling_rule_fails :
  ¬ needsRetitling_rule absent Demo.blank_title_session.
Proof.
  intros [_ H].
  assert (Hl : strictly_later (modified Demo.blank_title_session)
                 (default [] (titledAt Demo.blank_title_session)))
    by (vm_compute; reflexivity).
  apply H in Hl; [|discriminate|discriminate].
  vm_compute in Hl. discriminate.
Qed.

Lemma needsRetitling_spec_witness :
  needsRetitling Demo.stale_session = true
  ∧ needsRetitling Demo.legacy_session = false.
Proof.
  split.
  - apply (needsRetitling_spec Demo.stale_session).
    + vm_compute. reflexivity.
    + intros [H|H]; vm_compute in H; discriminate H.
    + intros H. vm_compute in H. discriminate H.
    + vm_compute. reflexivity.
  - apply (needsRetitling_spec Demo.legacy_session).
    + vm_compute. reflexivity.
    + right. reflexivity.
Defined.

(** C3, as stated, fails: the same entry has a good prompt and ten
    messages, its [customTitle] is not absent and it does not need
    retitling, yet it is selected. *)
Lemma shouldProcessSession_rule_fails :
  ¬ shouldProcessSession_rule absent Demo.blank_title_session.
Proof.
  intros (_ & _ & H).
  assert (Hs : shouldProcessSession Demo.blank_title_session = true)
    by (vm_compute; reflexivity).
  apply H in Hs.
  - destruct Hs as [Hs|Hs]; vm_compute in Hs; discriminate Hs.
  - intros Hd%degenerate_prompt_test. vm_compute in Hd. discriminate Hd.
  - vm_compute. discriminate.
Qed.

Lemma shouldProcessSession_spec_witness :
  shouldProcessSession Demo.docker_session = true
  ∧ shouldProcessSession Demo.short_session = false.
Proof.
  split.
  - apply (shouldProcessSession_spec Demo.docker_session).
    + intros Hd%degenerate_prompt_test. vm_compute in Hd. discriminate Hd.
    + vm_compute. discriminate.
    + left. left. reflexivity.
  - apply (shouldProcessSession_spec Demo.short_session).
    vm_compute. reflexivity.
Defined.

(** The four unit tests of [needsRetitling]. *)
Example needsRetitling_tests :
  needsRetitling Demo.baseEntry = false
  ∧ needsRetitling
      (Demo.entry "test-123" "Hello world" 10 "/path/to/session.jsonl"
                  "2026-01-01T12:00:00Z" (Some "Old Title") None) = false
  ∧ needsRetitling
      (Demo.entry "test-123" "Hello world" 10 "/path/to/session.jsonl"
                  "2026-01-01T12:00:00Z" (Some "Old Title")
                  (Some "2026-01-01T14:00:00Z")) = false
  ∧ needsRetitling
      (Demo.entry "test-123" "Hello world" 10 "/path/to/session.jsonl"
                  "2026-01-01T16:00:00Z" (Some "Old Title")
                  (Some "2026-01-01T14:00:00Z")) = true.
Proof. vm_compute. done. Qed.

(** The boundary of the unit tests: three messages qualify, two do not. *)
Example shouldProcessSession_boundary :
  shouldProcessSession
    (Demo.entry "test-123" "Hello world" 3 "/path/to/session.jsonl"
                "2026-01-01T12:00:00Z" None None) = true
  ∧ shouldProcessSession
      (Demo.entry "test-123" "Hello world" 2 "/path/to/session.jsonl"
                  "2026-01-01T12:00:00Z" None None) = false
  ∧ shouldProcessSession
      (Demo.entry "test-123" "   " 10 "/path/to/session.jsonl"
                  "2026-01-01T12:00:00Z" None None) = false
  ∧ shouldProcessSession
      (Demo.entry "test-123" "No prompt" 10 "/path/to/session.jsonl"
                  "2026-01-01T12:00:00Z" None None) = false.
Proof. vm_compute. done. Qed.

End EligibilityExamples.

(** ** Running the effectful code *)

Section Runs.

Context {rt : Runtime}.

(** Unfold the monad's plumbing and reduce. *)
Ltac run :=
  cbv beta iota delta
    [mbind M_bind mret M_ret throw console_error console_log try_catch];
  cbn.

Lemma bind_run {A B : Type} (m : M A) (k : A → M B) (w : World) :
  (m ≫= k) w = match m w with
               | (Val a, w') => k a w'
               | (Throw e, w') => (Throw e, w')
               end.
Proof. reflexivity. Qed.

Lemma same_but_console_refl w : same_but_console w w.
Proof. by repeat split. Qed.

Lemma same_but_console_trans w1 w2 w3 :
  same_but_console w1 w2 → same_but_console w2 w3 → same_but_console w1 w3.
Proof.
  intros ((?&?&?)&?&?) ((?&?&?)&?&?). repeat split; congruence.
Qed.

Lemma console_log_run l w :
  console_log l w = (Val tt, with_console w (console w ++ [l])).
Proof. reflexivity. Qed.

Lemma with_console_same w c : same_but_console w (with_console w c).
Proof. by repeat split. Qed.

Lemma when_log_run (c : bool) l w :
  ∃ w', when c (console_log l) w = (Val tt, w') ∧ same_but_console w w'.
Proof.
  destruct c; eexists; (split; [reflexivity|]).
  - apply with_console_same.
  - apply same_but_console_refl.
Qed.

(** *** Title generator *)

Lemma or_else_nonempty (a b : option jsstr) :
  or_else (or_else a b) None
  = match nonempty a with Some t => Some t | None => nonempty b end.
Proof. by destruct a as [[|]|], b as [[|]|]. Qed.

Lemma response_ok_decide status body :
  response_ok (status, body) = bool_decide (200 ≤ status ≤ 299).
Proof.
  unfold response_ok. cbn. apply eq_true_iff_eq.
  rewrite andb_true_iff, !Z.leb_le, bool_decide_eq_true. done.
Qed.

Lemma generated_title_truthy o :
  truthy_opt (generated_title o) = bool_decide (is_Some (generated_title o)).
Proof.
  assert (Hn : ∀ x, truthy_opt (nonempty x) = bool_decide (is_Some (nonempty x))).
  { intros [[|]|]; cbn; try done.
    all: symmetry; apply bool_decide_eq_false; by intros [? ?]. }
  assert (Hnone : false = bool_decide (is_Some (@None jsstr))).
  { symmetry; apply bool_decide_eq_false; by intros [? ?]. }
  destruct o as [|status body]; cbn; [exact Hnone|].
  destruct (bool_decide (200 ≤ status ≤ 299)); [|exact Hnone].
  destruct body as [data|]; cbn; [|exact Hnone].
  destruct (nonempty (trim <$> field reply_content _)) eqn:E.
  - rewrite <- E. apply Hn.
  - apply Hn.
Qed.

Lemma generateTitle_run conversation w :
  ∃ w',
    generateTitle conversation w
    = (Val (generated_title
              (fetch_outcome (length (requests w)) (TITLE_PROMPT conversation))),
       w')
    ∧ requests w' = requests w ++ [TITLE_PROMPT conversation]
    ∧ ticks w' = ticks w
    ∧ same_disk w w'.
Proof.
  unfold generateTitle, fetch. run.
  destruct (fetch_outcome _ _) as [|status body]; cbn.
  - eexists. split; [reflexivity|]. by repeat split.
  - rewrite response_ok_decide. case_bool_decide; cbn.
    + destruct body as [data|]; unfold response_json; run.
      * eexists. split; [by rewrite or_else_nonempty|by repeat split].
      * eexists. split; [reflexivity|]. by repeat split.
    + eexists. split; [reflexivity|]. by repeat split.
Qed.

(** *** Message log loader *)

Lemma loadSessionMessages_run path w :
  loadSessionMessages path w = (Val (log_messages (files w) path), w).
Proof.
  unfold loadSessionMessages, try_catch, log_messages.
  rewrite bind_run. unfold readFile.
  by destruct (files w !! path).
Qed.

(** *** One session *)

Lemma processSession_run e dryRun w :
  ∃ w',
    processSession e dryRun w
    = (Val (match new_title dryRun (files w) (length (requests w)) e with
            | Some ttl => Some {| title := ttl;
                                  result_titledAt := Date_toISOString (ticks w);
                                  updated := true |}
            | None => None
            end), w')
    ∧ same_disk w w'
    ∧ requests w'
      = requests w ++ (if asks_model dryRun (files w) e
                       then [prompt_of (files w) e] else [])
    ∧ ticks w'
      = match new_title dryRun (files w) (length (requests w)) e with
        | Some _ => S (ticks w)
        | None => ticks w
        end.
Proof.
  unfold processSession, new_title, asks_model.
  destruct (shouldProcessSession e); cbn.
  2:{ eexists. split; [reflexivity|]. rewrite app_nil_r. by repeat split. }
  rewrite bind_run, loadSessionMessages_run. fold (excerpt (files w) e).
  destruct (decide (excerpt (files w) e = [])) as [Hex|Hex].
  { rewrite (bool_decide_eq_true_2 (length _ = 0%nat)) by (by rewrite Hex).
    rewrite (bool_decide_eq_true_2 (excerpt _ _ = [])) by done. cbn.
    eexists. split; [reflexivity|]. rewrite app_nil_r. by repeat split. }
  rewrite (bool_decide_eq_false_2 (length _ = 0%nat))
    by (by destruct (excerpt (files w) e)).
  rewrite (bool_decide_eq_false_2 (excerpt _ _ = [])) by done. cbn.
  rewrite bind_run, console_log_run.
  destruct dryRun; cbn.
  { run. eexists. split; [reflexivity|]. rewrite app_nil_r. by repeat split. }
  rewrite bind_run.
  match goal with |- context [generateTitle ?c ?w0] =>
    destruct (generateTitle_run c w0) as (w1 & -> & Hreq & Htick & Hd1 & Hd2 & Hd3)
  end.
  cbn in Hreq, Htick, Hd1, Hd2, Hd3. fold (prompt_of (files w) e) in *.
  rewrite generated_title_truthy.
  destruct (generated_title _) as [ttl|] eqn:Ett.
  - rewrite bool_decide_eq_true_2 by eauto. run. unfold now_iso.
    eexists. split; [by rewrite Htick|]. cbn. by repeat split.
  - rewrite bool_decide_eq_false_2 by (by intros [? ?]). run.
    eexists. split; [reflexivity|]. cbn. by repeat split.
Qed.

(** *** The loop over the candidates

    The references still to be visited point into the part [suf] of the
    array that has not been touched yet; [pre] is the part already
    visited. *)

Lemma asks_model_candidate dryRun fs e :
  shouldProcessSession e = false → asks_model dryRun fs e = false.
Proof. unfold asks_model. by intros ->. Qed.

Lemma new_title_asks dryRun fs k e ttl :
  new_title dryRun fs k e = Some ttl → asks_model dryRun fs e = true.
Proof. unfold new_title. by destruct (asks_model dryRun fs e). Qed.

Lemma title_loop_run dryRun suf : ∀ pre n w,
  ∃ w',
    for_of (filter_refs shouldProcessSession (length pre) suf)
           (pre ++ suf, n) (title_step dryRun) w
    = (Val (pre ++ retitled dryRun (files w) (length (requests w)) (ticks w) suf,
            (n + retitled_count dryRun (files w) (length (requests w)) suf)%nat),
       w')
    ∧ same_disk w w'
    ∧ requests w' = requests w ++ prompts_sent dryRun (files w) suf
    ∧ ticks w'
      = (ticks w + retitled_count dryRun (files w) (length (requests w)) suf)%nat.
Proof.
  induction suf as [|e rest IH]; intros pre n w.
  { cbn. eexists. split; [by rewrite Nat.add_0_r|].
    unfold prompts_sent. cbn. rewrite app_nil_r, Nat.add_0_r. by repeat split. }
  cbn [filter_refs retitled retitled_count].
  assert (Hsnoc : ∀ x, S (length pre) = length (pre ++ [x]))
    by (intros; rewrite length_app; cbn; lia).
  assert (Hcons : ∀ x l, pre ++ x :: l = (pre ++ [x]) ++ l)
    by (intros; by rewrite <- app_assoc).
  destruct (shouldProcessSession e) eqn:Es.
  - cbn [for_of]. rewrite bind_run. unfold title_step at 1. cbn [fst snd].
    rewrite list_lookup_middle by done.
    rewrite bind_run.
    destruct (processSession_run e dryRun w) as (w1 & -> & (Hf & Hd & Hw) & Hreq & Htick).
    destruct (new_title dryRun (files w) (length (requests w)) e) as [ttl|] eqn:Ent.
    + pose proof (new_title_asks _ _ _ _ _ Ent) as Hasks.
      rewrite Hasks in Hreq |- *. cbn.
      rewrite insert_app_r_alt, Nat.sub_diag by done. cbn [insert list_insert].
      rewrite (Hsnoc (set_title e ttl (Date_toISOString (ticks w)))).
      rewrite (Hcons _ rest).
      destruct (IH (pre ++ [set_title e ttl (Date_toISOString (ticks w))]) (S n) w1)
        as (w' & -> & (Hf' & Hd' & Hw') & Hreq' & Htick').
      rewrite Hf, Hreq, Htick, length_app in *. cbn [length] in *.
      rewrite Nat.add_1_r in *.
      eexists. split; [by rewrite <- Hcons, Nat.add_succ_r|].
      split; [repeat split; congruence|].
      split.
      * rewrite Hreq'. unfold prompts_sent. cbn [List.filter]. rewrite Hasks.
        by rewrite <- app_assoc.
      * lia.
    + cbn. rewrite (Hsnoc e), (Hcons e rest).
      destruct (IH (pre ++ [e]) n w1)
        as (w' & -> & (Hf' & Hd' & Hw') & Hreq' & Htick').
      assert (Hk : length (requests w1)
                   = if asks_model dryRun (files w) e
                     then S (length (requests w)) else length (requests w)).
      { rewrite Hreq. destruct (asks_model dryRun (files w) e).
        - rewrite length_app. cbn. lia.
        - by rewrite app_nil_r. }
      rewrite Hf, Hk, Htick in *.
      eexists. split; [by rewrite <- Hcons|].
      split; [repeat split; congruence|].
      split; [|done].
      rewrite Hreq', Hreq. unfold prompts_sent. cbn [List.filter].
      destruct (asks_model dryRun (files w) e); cbn.
      * by rewrite <- app_assoc.
      * by rewrite app_nil_r.
  - unfold new_title. rewrite (asks_model_candidate _ _ _ Es).
    rewrite (Hsnoc e), (Hcons e rest).
    destruct (IH (pre ++ [e]) n w) as (w' & -> & Hdisk & Hreq' & Htick').
    eexists. split; [by rewrite <- Hcons|].
    split; [done|]. split; [|done].
    rewrite Hreq'. unfold prompts_sent. cbn [List.filter].
    by rewrite (asks_model_candidate _ _ _ Es).
Qed.

(** *** One index file *)

Lemma processIndexFile_parsed indexPath dryRun w c index :
  files w !! indexPath = Some c →
  JSON_parse_index c = Some index →
  ∃ w',
    processIndexFile indexPath dryRun w
    = (Val (retitled_count dryRun (files w) (length (requests w)) (entries index)),
       w')
    ∧ dirs w' = dirs w
    ∧ requests w' = requests w ++ prompts_sent dryRun (files w) (entries index)
    ∧ ticks w'
      = (ticks w
         + retitled_count dryRun (files w) (length (requests w)) (entries index))%nat
    ∧ if bool_decide
           (0 < retitled_count dryRun (files w) (length (requests w)) (entries index))%nat
         && negb dryRun
      then files w'
           = <[indexPath :=
                 JSON_stringify
                   {| version := version index;
                      entries := retitled dryRun (files w) (length (requests w))
                                          (ticks w) (entries index) |}]> (files w)
           ∧ writes w' = writes w ++ [indexPath]
      else files w' = files w ∧ writes w' = writes w.
Proof.
  intros Hread Hparse. unfold processIndexFile.
  rewrite bind_run, console_log_run.
  rewrite bind_run. unfold readFile at 1. cbn [files with_console].
  rewrite Hread, Hparse. rewrite bind_run. cbn [mret M_ret].
  set (w0 := with_console w _).
  assert (H0 : same_but_console w w0) by apply with_console_same.
  rewrite bind_run.
  edestruct when_log_run as (w1 & -> & H1).
  rewrite bind_run.
  edestruct when_log_run as (w2 & -> & H2).
  rewrite bind_run.
  edestruct when_log_run as (w3 & -> & H3).
  assert (Hw3 : same_but_console w w3)
    by eauto using same_but_console_trans.
  destruct Hw3 as ((Hf & Hd & Hw) & Hreq & Htick).
  rewrite bind_run.
  destruct (title_loop_run dryRun (entries index) [] 0%nat w3)
    as (w4 & Hloop & (Hf4 & Hd4 & Hw4) & Hreq4 & Htick4).
  cbn [length app] in Hloop. rewrite Hloop. clear Hloop.
  rewrite Hf, Hreq, Htick in *. cbn [fst snd]. rewrite Nat.add_0_l.
  set (n := retitled_count _ _ _ _) in *.
  destruct (bool_decide (0 < n)%nat && negb dryRun) eqn:Ewrite; cbn [when].
  - run. eexists. split; [reflexivity|]. cbn.
    rewrite Hf4, Hw4, Hw. repeat split; congruence.
  - run. eexists. split; [reflexivity|].
    repeat split; congruence.
Qed.

Lemma processIndexFile_malformed indexPath dryRun w c :
  files w !! indexPath = Some c →
  JSON_parse_index c = None →
  processIndexFile indexPath dryRun w
  = (Throw SyntaxError,
     with_console w (console w ++ [LogProcessingIndex indexPath])).
Proof.
  intros Hread Hparse. unfold processIndexFile.
  rewrite bind_run, console_log_run.
  rewrite bind_run. unfold readFile at 1. cbn [files with_console].
  by rewrite Hread, Hparse.
Qed.

Lemma processIndexFile_unreadable indexPath dryRun w :
  files w !! indexPath = None →
  processIndexFile indexPath dryRun w
  = (Throw (ENOENT indexPath),
     with_console w (console w ++ [LogProcessingIndex indexPath])).
Proof.
  intros Hread. unfold processIndexFile.
  rewrite bind_run, console_log_run.
  rewrite bind_run. unfold readFile at 1. cbn [files with_console].
  by rewrite Hread.
Qed.

(** *** Discovery *)

Lemma probe_loop_run projects : ∀ indexFiles w,
  for_of projects indexFiles (λ indexFiles project,
    try_catch
      (_ ← readFile (index_path project); mret (indexFiles ++ [index_path project]))
      (λ _, mret indexFiles)) w
  = (Val (indexFiles
          ++ List.filter (λ p, bool_decide (is_Some (files w !! p)))
                         (index_path <$> projects)), w).
Proof.
  induction projects as [|p ps IH]; intros acc w.
  { cbn. by rewrite app_nil_r. }
  cbn [for_of]. rewrite bind_run. unfold try_catch at 1.
  rewrite bind_run. unfold readFile at 1. cbn [fmap list_fmap List.filter].
  destruct (files w !! index_path p) as [c|] eqn:E.
  - rewrite bool_decide_eq_true_2 by eauto. cbn [mret M_ret].
    rewrite IH. by rewrite <- app_assoc.
  - rewrite bool_decide_eq_false_2 by (by intros [? ?]). cbn [mret M_ret].
    by rewrite IH.
Qed.

Lemma findSessionsIndex_run w :
  ∃ w',
    findSessionsIndex w = (Val (discovered w), w')
    ∧ same_but_console w w'
    ∧ (discovered w ≠ [] → w' = w).
Proof.
  unfold findSessionsIndex, discovered. unfold try_catch at 1.
  rewrite bind_run. unfold readdir.
  destruct (dirs w !! CONFIG.projectsDir) as [projects|].
  - pose proof (probe_loop_run projects [] w) as Hloop.
    unfold index_path in Hloop. rewrite Hloop. cbn [app].
    eexists. split; [reflexivity|]. split; [apply same_but_console_refl|done].
  - run. eexists. split; [reflexivity|]. split; [apply with_console_same|done].
Qed.

End Runs.

(** ** Properties of a pass, on its functional account *)

Section Pass.

Context {rt : Runtime}.

Implicit Types es : list SessionIndexEntry.

Lemma retitled_length dryRun fs es : ∀ k t,
  length (retitled dryRun fs k t es) = length es.
Proof.
  induction es as [|e es IH]; intros k t; cbn; [done|].
  destruct (new_title dryRun fs k e); cbn; by rewrite IH.
Qed.

Lemma asked_shift dryRun fs e0 es (k i : nat) :
  (k + asked dryRun fs (take (S i) (e0 :: es))
   = (if asks_model dryRun fs e0 then S k else k)
     + asked dryRun fs (take i es))%nat.
Proof.
  unfold asked. rewrite firstn_cons. cbn [List.filter].
  destruct (asks_model dryRun fs e0); cbn [length]; lia.
Qed.

Lemma asked_first dryRun fs es (k : nat) :
  (k + asked dryRun fs (take 0 es) = k)%nat.
Proof. unfold asked. rewrite take_0. cbn. lia. Qed.

(** The entry at position [i] is retitled exactly when the request made
    for it, which comes after those of the entries before it, yields a
    title; otherwise it is the entry that was there. *)
Lemma retitled_lookup dryRun fs es : ∀ k t i e,
  es !! i = Some e →
  ∃ at_,
    retitled dryRun fs k t es !! i
    = Some (match new_title dryRun fs (k + asked dryRun fs (take i es)) e with
            | Some ttl => set_title e ttl at_
            | None => e
            end).
Proof.
  induction es as [|e0 es IH]; intros k t i e Hi; [done|].
  destruct i as [|i]; cbn in Hi.
  - injection Hi as ->. rewrite asked_first. cbn.
    destruct (new_title dryRun fs k e); cbn; [by eexists|by exists []].
  - rewrite asked_shift. cbn [retitled].
    destruct (new_title dryRun fs k e0); cbn; by apply IH.
Qed.

Lemma retitled_count_pos dryRun fs es : ∀ k,
  (0 < retitled_count dryRun fs k es)%nat
  ↔ ∃ i e, es !! i = Some e
           ∧ is_Some (new_title dryRun fs (k + asked dryRun fs (take i es)) e).
Proof.
  induction es as [|e0 es IH]; intros k; cbn [retitled_count].
  { split; [lia|]. by intros (i & e & ? & _). }
  split.
  - intros Hpos.
    destruct (new_title dryRun fs k e0) as [ttl|] eqn:E.
    + exists 0%nat, e0. split; [done|]. rewrite asked_first, E. eauto.
    + apply IH in Hpos as (i & e & Hi & Hsome).
      exists (S i), e. split; [done|]. by rewrite asked_shift.
  - intros (i & e & Hi & Hsome). destruct i as [|i]; cbn in Hi.
    + injection Hi as ->. rewrite asked_first in Hsome.
      destruct Hsome as [ttl ->]. lia.
    + rewrite asked_shift in Hsome.
      assert (0 < retitled_count dryRun fs
                    (if asks_model dryRun fs e0 then S k else k) es)%nat
        by (apply IH; eauto).
      destruct (new_title dryRun fs k e0); lia.
Qed.

Lemma new_title_dry_run fs k e : new_title true fs k e = None.
Proof.
  unfold new_title, asks_model. by rewrite andb_false_r.
Qed.

Lemma retitled_dry_run fs es : ∀ k t,
  retitled true fs k t es = es ∧ retitled_count true fs k es = 0%nat.
Proof.
  induction es as [|e es IH]; intros k t; cbn; [done|].
  rewrite new_title_dry_run.
  destruct (IH (if asks_model true fs e then S k else k) t) as [-> ->]. done.
Qed.

Lemma prompts_sent_dry_run fs es : prompts_sent true fs es = [].
Proof.
  unfold prompts_sent. induction es as [|e es IH]; cbn; [done|].
  unfold asks_model at 1. by rewrite andb_false_r.
Qed.

End Pass.

(** ** The title generator *)

Section GeneratorSpec.

Context {rt : Runtime}.

(** C6: [generateTitle] always returns a value, never an exception; the
    value is null when the request is rejected (transport failure) and on
    every status outside 200-299; on a successful response it is the first
    choice's content, trimmed, or if that is empty or absent the trimmed
    reasoning field, and null if both are empty or absent. *)
Theorem generateTitle_spec (conversation : jsstr) (w : World) :
  let outcome :=
    fetch_outcome (length (requests w)) (TITLE_PROMPT conversation) in
  ∃ r w',
    generateTitle conversation w = (Val r, w')
    ∧ (outcome = Rejected → r = None)
    ∧ (∀ status body,
         outcome = Response status body → ¬ (200 ≤ status ≤ 299) → r = None)
    ∧ (∀ status body,
         outcome = Response status body → 200 ≤ status ≤ 299 →
         r = reply_title body).
Proof.
  intros outcome.
  destruct (generateTitle_run conversation w) as (w' & Hrun & _).
  fold outcome in Hrun. eexists _, w'. split; [exact Hrun|].
  split_and!.
  - by intros ->.
  - intros status body -> Hbad. cbn. by rewrite bool_decide_eq_false_2.
  - intros status body -> Hok. cbn. by rewrite bool_decide_eq_true_2.
Qed.

End GeneratorSpec.

(** The first answer of the example endpoint is a padded title. *)
Lemma generateTitle_spec_witness :
  ∃ w',
    generateTitle (rt := Demo.runtime) (lit "User: How do I set up Docker?")
                  Demo.world
    = (Val (Some (lit "Docker Setup Help")), w').
Proof.
  destruct (generateTitle_spec (rt := Demo.runtime)
              (lit "User: How do I set up Docker?") Demo.world)
    as (r & w' & Hrun & _ & _ & Hok).
  exists w'. rewrite Hrun.
  rewrite (Hok 200 _ eq_refl ltac:(lia)).
  vm_compute. reflexivity.
Defined.

(** ** The message log loader *)

Section LoaderSpec.

Context {rt : Runtime}.

(** C10: on an existing but empty log file [loadSessionMessages] returns a
    one-element list whose record has type "unknown", whereas a missing
    file yields the empty list.  ([JSON.parse] rejects the empty string.) *)
Theorem loadSessionMessages_empty_file (path : jsstr) (w : World) :
  JSON_parse_message [] = None →
  (files w !! path = Some [] →
   loadSessionMessages path w = (Val [unknown_message], w)
   ∧ msg_type unknown_message = lit "unknown")
  ∧ (files w !! path = None → loadSessionMessages path w = (Val [], w)).
Proof.
  intros Hparse. rewrite loadSessionMessages_run. unfold log_messages.
  split; intros ->; [|done].
  split; [|done]. change (trim []) with (@nil N). cbn.
  unfold parse_line. by rewrite Hparse.
Qed.

End LoaderSpec.

Lemma loadSessionMessages_empty_file_witness :
  loadSessionMessages (rt := Demo.runtime) (lit "/logs/empty.jsonl") Demo.world
  = (Val [unknown_message], Demo.world)
  ∧ loadSessionMessages (rt := Demo.runtime) (lit "/logs/lost.jsonl") Demo.world
    = (Val [], Demo.world).
Proof.
  split.
  - apply (loadSessionMessages_empty_file (rt := Demo.runtime)
             (lit "/logs/empty.jsonl") Demo.world);
      vm_compute; reflexivity.
  - apply (loadSessionMessages_empty_file (rt := Demo.runtime)
             (lit "/logs/lost.jsonl") Demo.world);
      vm_compute; reflexivity.
Defined.

(** ** The index updater *)

Section UpdaterSpec.

Context {rt : Runtime}.

(** C7: in live mode [processIndexFile] rewrites the index file if and
    only if at least one entry was updated.  Entries keep their positions,
    and an entry that received no title is the entry that was there: this
    covers the entries that are not candidates, the candidates with an empty
    excerpt and the candidates for which [generateTitle], called as the
    request of their turn, returns null; such a candidate is still a
    candidate afterwards. *)
Theorem processIndexFile_live_frame
    (indexPath : jsstr) (w : World) (c : jsstr) (index : SessionIndex) :
  files w !! indexPath = Some c →
  JSON_parse_index c = Some index →
  let fs := files w in
  let es := entries index in
  let request_no (i : nat) := (length (requests w) + asked false fs (take i es))%nat in
  let title_for (i : nat) (e : SessionIndexEntry) :=
    new_title false fs (request_no i) e in
  ∃ n es' w',
    processIndexFile indexPath false w = (Val n, w')
    ∧ ((0 < n)%nat ↔ ∃ i e, es !! i = Some e ∧ is_Some (title_for i e))
    ∧ (if bool_decide (0 < n)%nat
       then files w'
            = <[indexPath := JSON_stringify {| version := version index;
                                               entries := es' |}]> fs
            ∧ writes w' = writes w ++ [indexPath]
       else files w' = fs ∧ writes w' = writes w)
    ∧ length es' = length es
    ∧ ∀ i e, es !! i = Some e →
        (shouldProcessSession e = false → title_for i e = None)
        ∧ (excerpt fs e = [] → title_for i e = None)
        ∧ (∀ w0, length (requests w0) = request_no i →
           (generateTitle (excerpt_text fs e) w0).1 = Val None →
           title_for i e = None)
        ∧ (title_for i e = None →
           es' !! i = Some e
           ∧ (shouldProcessSession e = true →
              ∃ e', es' !! i = Some e' ∧ shouldProcessSession e' = true))
        ∧ (∀ ttl, title_for i e = Some ttl →
           ∃ at_, es' !! i = Some (set_title e ttl at_)).
Proof.
  intros Hread Hparse fs es request_no title_for.
  destruct (processIndexFile_parsed indexPath false w c index Hread Hparse)
    as (w' & Hrun & _ & _ & _ & Hwrite).
  fold fs es in Hrun, Hwrite. rewrite andb_true_r in Hwrite.
  eexists _, (retitled false fs (length (requests w)) (ticks w) es), w'.
  split; [exact Hrun|].
  split; [apply retitled_count_pos|].
  split; [exact Hwrite|].
  split; [apply retitled_length|].
  intros i e Hi.
  destruct (retitled_lookup false fs es (length (requests w)) (ticks w) i e Hi)
    as (at_ & Hlook).
  fold (request_no i) in Hlook. fold (title_for i e) in Hlook.
  split_and!.
  - intros Hs. unfold title_for, new_title.
    by rewrite (asks_model_candidate _ _ _ Hs).
  - intros Hex. unfold title_for, new_title, asks_model.
    rewrite Hex, bool_decide_eq_true_2 by done.
    by rewrite andb_false_r.
  - intros w0 Hlen Hnull.
    destruct (generateTitle_run (excerpt_text fs e) w0) as (w1 & Hgen & _).
    rewrite Hgen, Hlen in Hnull. injection Hnull as Hnull.
    unfold title_for, new_title, prompt_of.
    rewrite Hnull. by destruct (asks_model false fs e).
  - intros Hnone. rewrite Hnone in Hlook. split; [done|]. eauto.
  - intros ttl Hsome. rewrite Hsome in Hlook. eauto.
Qed.

(** C8: in dry-run mode the loop over the candidates returns the entries
    it was given and a count of zero, and [processIndexFile] sends no
    request to the model, writes no file, and can only return zero, which
    it does whenever the index file is read and parsed. *)
Theorem processIndexFile_dry_run (indexPath : jsstr) (w : World) :
  (∀ es w0, ∃ w1,
     for_of (filter_refs shouldProcessSession 0 es) (es, 0%nat) (title_step true) w0
     = (Val (es, 0%nat), w1)
     ∧ requests w1 = requests w0 ∧ same_disk w0 w1)
  ∧ ∃ r w',
      processIndexFile indexPath true w = (r, w')
      ∧ requests w' = requests w
      ∧ files w' = files w
      ∧ writes w' = writes w
      ∧ (∀ n, r = Val n → n = 0%nat)
      ∧ (∀ c index,
           files w !! indexPath = Some c → JSON_parse_index c = Some index →
           r = Val 0%nat).
Proof.
  split.
  { intros es w0.
    destruct (title_loop_run true es [] 0%nat w0) as (w1 & Hloop & Hdisk & Hreq & _).
    destruct (retitled_dry_run (files w0) es (length (requests w0)) (ticks w0))
      as [Hes Hn].
    cbn [app length] in Hloop. rewrite Hes, Hn in Hloop.
    rewrite prompts_sent_dry_run, app_nil_r in Hreq. eauto. }
  destruct (files w !! indexPath) as [c|] eqn:Hread.
  - destruct (JSON_parse_index c) as [index|] eqn:Hparse.
    + destruct (processIndexFile_parsed indexPath true w c index Hread Hparse)
        as (w' & Hrun & _ & Hreq & _ & Hwrite).
      destruct (retitled_dry_run (files w) (entries index)
                  (length (requests w)) (ticks w)) as [_ Hn].
      rewrite Hn in *. rewrite andb_false_r in Hwrite.
      rewrite prompts_sent_dry_run, app_nil_r in Hreq.
      destruct Hwrite as [Hf Hw].
      eexists _, w'. split; [exact Hrun|].
      split_and!; [done|done|done| |done].
      by intros n [= <-].
    + rewrite (processIndexFile_malformed _ _ _ _ Hread Hparse).
      eexists _, _. split; [reflexivity|].
      split_and!; [done|done|done|done|].
      intros c' index [= <-]. congruence.
  - rewrite (processIndexFile_unreadable _ _ _ Hread).
    eexists _, _. split; [reflexivity|].
    split_and!; done.
Qed.

(** C9, amended: an entry whose [customTitle] is a non-empty string and
    whose [titledAt] is absent is not selected by [shouldProcessSession],
    and [processIndexFile], live or dry-run, leaves it as it is: the loop
    ends with that entry unchanged at its position, and the index file
    afterwards is either the one that was read or a rewritten index with
    that entry unchanged at its position. *)
Theorem legacy_never_retitled (e : SessionIndexEntry) (t : jsstr) :
  customTitle e = Some t → t ≠ [] → titledAt e = None →
  shouldProcessSession e = false
  ∧ ∀ dryRun indexPath w c index i,
      files w !! indexPath = Some c →
      JSON_parse_index c = Some index →
      entries index !! i = Some e →
      (∃ es' n w1,
         for_of (filter_refs shouldProcessSession 0 (entries index))
                (entries index, 0%nat) (title_step dryRun) w
         = (Val (es', n), w1)
         ∧ es' !! i = Some e)
      ∧ ∃ n w',
          processIndexFile indexPath dryRun w = (Val n, w')
          ∧ (files w' !! indexPath = Some c
             ∨ ∃ es',
                 files w' !! indexPath
                 = Some (JSON_stringify {| version := version index;
                                           entries := es' |})
                 ∧ es' !! i = Some e).
Proof.
  intros Htitle Hne Hat.
  assert (Hs : shouldProcessSession e = false).
  { unfold shouldProcessSession, needsRetitling.
    rewrite Htitle, Hat. destruct t; [done|]. cbn.
    by repeat case_match. }
  split; [exact Hs|].
  intros dryRun indexPath w c index i Hread Hparse Hi.
  destruct (retitled_lookup dryRun (files w) (entries index)
              (length (requests w)) (ticks w) i e Hi) as (at_ & Hlook).
  unfold new_title in Hlook.
  rewrite (asks_model_candidate _ _ _ Hs) in Hlook.
  split.
  - destruct (title_loop_run dryRun (entries index) [] 0%nat w)
      as (w1 & Hloop & _).
    cbn [app length] in Hloop. eauto.
  - destruct (processIndexFile_parsed indexPath dryRun w c index Hread Hparse)
      as (w' & Hrun & _ & _ & _ & Hwrite).
    eexists _, w'. split; [exact Hrun|].
    destruct (bool_decide _ && negb dryRun).
    + destruct Hwrite as [-> _]. right. eexists. split; [|exact Hlook].
      apply lookup_insert_eq.
    + destruct Hwrite as [-> _]. by left.
Qed.

End UpdaterSpec.

(** ** The run orchestrator *)

Section OrchestratorSpec.

Context {rt : Runtime}.

(** The loop of [runOnce] over the discovered files stops with the
    [SyntaxError] of the first file that does not parse: the files before
    it are processed, a write of theirs leaves the other files as they
    are, and nothing catches the exception. *)
Lemma index_loop_aborts (dryRun : bool) (p c : jsstr) :
  JSON_parse_index c = None →
  ∀ (l : list jsstr) (total : nat) (w : World),
    p ∈ l →
    Forall (λ q, is_Some (files w !! q)) l →
    files w !! p = Some c →
    ∃ w' q,
      for_of l total (λ totalUpdated indexPath,
        n ← processIndexFile indexPath dryRun;
        mret (totalUpdated + n)%nat) w
      = (Throw SyntaxError, w')
      ∧ last (console w') = Some (LogProcessingIndex q).
Proof.
  intros Hbad. induction l as [|q l IH]; intros total w Hin Hall Hp.
  { by apply elem_of_nil in Hin. }
  apply Forall_cons in Hall as [[cq Hq] Hall].
  cbn [for_of]. rewrite bind_run, bind_run.
  destruct (JSON_parse_index cq) as [index|] eqn:Hparse.
  - destruct (processIndexFile_parsed q dryRun w cq index Hq Hparse)
      as (w1 & -> & _ & _ & _ & Hwrite).
    assert (Hne : q ≠ p) by (intros ->; congruence).
    apply elem_of_cons in Hin as [->|Hin]; [done|].
    cbn [mret M_ret].
    apply IH; [done| |].
    + eapply Forall_impl; [exact Hall|]. intros q' Hq'. cbn in Hq'.
      destruct (bool_decide _ && negb dryRun); destruct Hwrite as [-> _];
        [|done].
      destruct (decide (q = q')) as [->|Hqq].
      * rewrite lookup_insert_eq. eauto.
      * by rewrite lookup_insert_ne.
    + destruct (bool_decide _ && negb dryRun); destruct Hwrite as [-> _];
        [|done].
      by rewrite lookup_insert_ne.
  - rewrite (processIndexFile_malformed _ _ _ _ Hq Hparse).
    eexists _, q. split; [reflexivity|]. cbn. apply last_snoc.
Qed.

Lemma discovered_readable w :
  Forall (λ q, is_Some (files w !! q)) (discovered w).
Proof.
  unfold discovered. destruct (dirs w !! CONFIG.projectsDir); [|constructor].
  apply Forall_forall. intros q Hq%list_elem_of_In.
  apply filter_In in Hq as [_ Hq]. by apply bool_decide_eq_true in Hq.
Qed.

(** C1 does not hold of the code: [runOnce] awaits [processIndexFile]
    without a [try], so when one of the discovered index files does not
    parse, the [SyntaxError] ends the run: [runOnce] throws, and the last
    line printed is the "Processing" line of a file, so that no later index
    file is looked at and no total is reported. *)
Theorem runOnce_aborts_on_malformed_index
    (dryRun : bool) (w : World) (p c : jsstr) :
  p ∈ discovered w →
  files w !! p = Some c →
  JSON_parse_index c = None →
  ∃ w' q,
    runOnce dryRun w = (Throw SyntaxError, w')
    ∧ last (console w') = Some (LogProcessingIndex q).
Proof.
  intros Hfound Hread Hparse. unfold runOnce.
  rewrite bind_run, console_log_run.
  rewrite bind_run, console_log_run.
  rewrite bind_run.
  match goal with |- context [findSessionsIndex ?w0] =>
    destruct (findSessionsIndex_run w0) as (w1 & -> & Hsame & _)
  end.
  assert (Hdisc : ∀ c1 c2,
    discovered (with_console (with_console w c1) c2) = discovered w) by done.
  rewrite Hdisc.
  destruct Hsame as ((Hf & _) & _). cbn [files with_console] in Hf.
  rewrite bind_run, console_log_run. rewrite bind_run.
  edestruct (index_loop_aborts dryRun p c Hparse (discovered w) 0%nat)
    as (w' & q & -> & Hlast); [exact Hfound| | |by eauto].
  - cbn [files with_console]. rewrite Hf. apply discovered_readable.
  - cbn [files with_console]. by rewrite Hf.
Qed.

(** When the malformed file is the first one discovered, nothing at all
    has happened before the run ends. *)
Lemma runOnce_first_index_malformed
    (dryRun : bool) (w : World) (p : jsstr) (rest : list jsstr) (c : jsstr) :
  discovered w = p :: rest →
  files w !! p = Some c →
  JSON_parse_index c = None →
  ∃ w',
    runOnce dryRun w = (Throw SyntaxError, w')
    ∧ same_disk w w'
    ∧ requests w' = requests w
    ∧ console w'
      = console w ++ [LogBanner; LogMode dryRun;
                      LogFoundIndexFiles (S (length rest));
                      LogProcessingIndex p].
Proof.
  intros Hfound Hread Hparse. unfold runOnce.
  rewrite bind_run, console_log_run.
  rewrite bind_run, console_log_run.
  rewrite bind_run.
  match goal with |- context [findSessionsIndex ?w0] =>
    destruct (findSessionsIndex_run w0) as (w1 & -> & _ & Hsame)
  end.
  assert (Hdisc : ∀ c1 c2,
    discovered (with_console (with_console w c1) c2) = discovered w) by done.
  rewrite Hdisc, Hfound in *. rewrite Hsame by done.
  rewrite bind_run, console_log_run.
  rewrite bind_run. cbn [for_of]. rewrite bind_run, bind_run.
  erewrite processIndexFile_malformed by (cbn; eauto).
  eexists. split; [reflexivity|]. cbn.
  split; [by repeat split|]. split; [done|].
  by rewrite <- !app_assoc.
Qed.

End OrchestratorSpec.

(** ** The theorems on the example world *)

Section Examples.

Local Existing Instance Demo.runtime.

Lemma good_index_read :
  files Demo.world !! Demo.good_index_path = Some (lit "{good index}").
Proof. vm_compute. reflexivity. Defined.

Lemma good_index_parsed :
  JSON_parse_index (lit "{good index}") = Some Demo.good_index.
Proof. vm_compute. reflexivity. Defined.

(** A live pass over the example index: the legacy entry at position 0 and
    the entry with the missing log at position 3 are left as they are,
    the untitled entry at position 1 receives the generated title. *)
Lemma processIndexFile_live_frame_witness :
  ∃ n (es' : list SessionIndexEntry) w',
    processIndexFile Demo.good_index_path false Demo.world = (Val n, w')
    ∧ es' !! 0%nat = Some Demo.legacy_session
    ∧ es' !! 3%nat = Some Demo.lost_session
    ∧ ∃ at_, es' !! 1%nat
             = Some (set_title Demo.docker_session (lit "Docker Setup Help") at_).
Proof.
  destruct (processIndexFile_live_frame Demo.good_index_path Demo.world
              (lit "{good index}") Demo.good_index
              good_index_read good_index_parsed)
    as (n & es' & w' & Hrun & _ & _ & _ & Hframe).
  exists n, es', w'. split; [exact Hrun|]. split_and!.
  - destruct (Hframe 0%nat Demo.legacy_session eq_refl) as (Hskip & _ & _ & Hkeep & _).
    apply Hkeep, Hskip. vm_compute. reflexivity.
  - destruct (Hframe 3%nat Demo.lost_session eq_refl) as (_ & Hskip & _ & Hkeep & _).
    apply Hkeep, Hskip. vm_compute. reflexivity.
  - destruct (Hframe 1%nat Demo.docker_session eq_refl) as (_ & _ & _ & _ & Hset).
    apply Hset. vm_compute. reflexivity.
Defined.

Lemma processIndexFile_dry_run_witness :
  ∃ w',
    processIndexFile Demo.good_index_path true Demo.world = (Val 0%nat, w')
    ∧ requests w' = []
    ∧ files w' = files Demo.world
    ∧ writes w' = [].
Proof.
  destruct (processIndexFile_dry_run Demo.good_index_path Demo.world)
    as (_ & r & w' & Hrun & Hreq & Hf & Hw & _ & Hzero).
  rewrite (Hzero _ _ good_index_read good_index_parsed) in Hrun.
  exists w'. by split_and!.
Defined.

(** C9, as stated, fails: an entry whose [customTitle] is set to the empty
    string and that has no [titledAt] is selected, and a live pass over an
    index holding it updates that entry. *)
Lemma legacy_rule_fails :
  ¬ legacy_rule is_Some Demo.blank_legacy_session
  ∧ (processIndexFile Demo.blank_index_path false Demo.world).1 = Val 1%nat.
Proof.
  split; [|vm_compute; reflexivity].
  intros H. specialize (H ltac:(by eexists) eq_refl).
  vm_compute in H. discriminate H.
Qed.

Lemma legacy_never_retitled_witness :
  shouldProcessSession Demo.legacy_session = false
  ∧ ∃ n w',
      processIndexFile Demo.good_index_path false Demo.world = (Val n, w')
      ∧ (files w' !! Demo.good_index_path = Some (lit "{good index}")
         ∨ ∃ es',
             files w' !! Demo.good_index_path
             = Some (JSON_stringify {| version := 1; entries := es' |})
             ∧ es' !! 0%nat = Some Demo.legacy_session).
Proof.
  destruct (legacy_never_retitled Demo.legacy_session (lit "Hand-written title"))
    as [Hs Hkeep].
  - reflexivity.
  - vm_compute. discriminate.
  - reflexivity.
  - split; [exact Hs|].
    destruct (Hkeep false Demo.good_index_path Demo.world
                (lit "{good index}") Demo.good_index 0%nat
                good_index_read good_index_parsed eq_refl) as [_ Hfile].
    exact Hfile.
Defined.

(** The failing run: the projects directory lists a project whose index is
    not JSON before a project whose index has two sessions to title.  The
    run throws; processed on its own, the second index gets its two
    titles. *)
Lemma runOnce_aborts_on_malformed_index_witness :
  (∃ w' q,
     runOnce false Demo.world = (Throw SyntaxError, w')
     ∧ last (console w') = Some (LogProcessingIndex q))
  ∧ (processIndexFile Demo.good_index_path false Demo.world).1 = Val 2%nat.
Proof.
  split; [|vm_compute; reflexivity].
  apply (runOnce_aborts_on_malformed_index false Demo.world
           Demo.bad_index_path (lit "not valid json")).
  - assert (Hd : discovered Demo.world
                 = [Demo.bad_index_path; Demo.good_index_path])
      by (vm_compute; reflexivity).
    rewrite Hd. left.
  - vm_compute. reflexivity.
  - vm_compute. reflexivity.
Defined.

(** A log with a line that is not JSON: the line becomes the placeholder
    record and the other lines are kept. *)
Example loadSessionMessages_invalid_line :
  (λ r, match r with Val ms => Some (msg_type <$> ms) | Throw _ => None end)
    (loadSessionMessages (lit "/logs/stale.jsonl") Demo.world).1
  = Some [lit "user"; lit "unknown"; lit "assistant"].
Proof. vm_compute. reflexivity. Qed.

(** On the same world the run ends before anything is sent or written. *)
Example runOnce_first_index_malformed_example :
  ∃ w',
    runOnce false Demo.world = (Throw SyntaxError, w')
    ∧ files w' = files Demo.world
    ∧ requests w' = [].
Proof.
  destruct (runOnce_first_index_malformed false Demo.world
              Demo.bad_index_path [Demo.good_index_path] (lit "not valid json"))
    as (w' & Hrun & (Hf & _) & Hreq & _).
  - vm_compute. reflexivity.
  - vm_compute. reflexivity.
  - vm_compute. reflexivity.
  - exists w'. by split_and!.
Qed.

End Examples.

(** * Further properties of the titler *)

(** ** More on [trim] and [split] *)

Lemma trimStart_length s : (length (trimStart s) ≤ length s)%nat.
Proof.
  induction s as [|c s IH]; cbn; [done|].
  destruct (isWhiteSpace c); cbn; lia.
Qed.

Lemma trimStart_idem s : trimStart (trimStart s) = trimStart s.
Proof.
  induction s as [|c s IH]; cbn; [done|].
  destruct (isWhiteSpace c) eqn:E; [done|]. cbn. by rewrite E.
Qed.

Lemma trimStart_fixed_iff s :
  trimStart s = s ↔ (∀ c s', s = c :: s' → isWhiteSpace c = false).
Proof.
  destruct s as [|c s]; cbn; [by split|].
  destruct (isWhiteSpace c) eqn:E.
  - split.
    + intros H. pose proof (trimStart_length s) as Hl.
      rewrite H in Hl. cbn in Hl. lia.
    + intros H. specialize (H c s eq_refl). congruence.
  - split; [|done]. by intros _ c' s' [= <- <-].
Qed.

Lemma trimStart_app_ws u s :
  whitespace_only u → trimStart (u ++ s) = trimStart s.
Proof.
  unfold whitespace_only. induction 1 as [|c u Hc _ IH]; cbn; [done|].
  by rewrite Hc.
Qed.

Lemma trimStart_app_keep s u :
  trimStart s ≠ [] → trimStart (s ++ u) = trimStart s ++ u.
Proof.
  induction s as [|c s IH]; cbn; [done|].
  destruct (isWhiteSpace c); [exact IH|done].
Qed.

Lemma whitespace_only_reverse u : whitespace_only u → whitespace_only (reverse u).
Proof.
  unfold whitespace_only. by rewrite Forall_reverse.
Qed.

Lemma whitespace_only_app u v :
  whitespace_only u → whitespace_only v → whitespace_only (u ++ v).
Proof. unfold whitespace_only. intros. by apply Forall_app. Qed.

Lemma trimEnd_app_ws s u : whitespace_only u → trimEnd (s ++ u) = trimEnd s.
Proof.
  intros Hu. unfold trimEnd. rewrite reverse_app.
  by rewrite trimStart_app_ws by by apply whitespace_only_reverse.
Qed.

Lemma trimEnd_nil : trimEnd [] = [].
Proof. reflexivity. Qed.

Lemma trimEnd_idem s : trimEnd (trimEnd s) = trimEnd s.
Proof.
  unfold trimEnd. by rewrite reverse_involutive, trimStart_idem.
Qed.

Lemma trimStart_snoc s c :
  trimStart (s ++ [c])
  = if decide (trimStart s = [])
    then (if isWhiteSpace c then [] else [c])
    else trimStart s ++ [c].
Proof.
  case_decide as H.
  - apply trimStart_nil_iff in H. rewrite trimStart_app_ws by done. done.
  - by apply trimStart_app_keep.
Qed.

(** [trimEnd] never removes a first unit that is not white space. *)
Lemma trimEnd_cons_keep c s :
  isWhiteSpace c = false → trimEnd (c :: s) = c :: trimEnd s.
Proof.
  intros Hc. unfold trimEnd. rewrite reverse_cons, trimStart_snoc.
  case_decide as H.
  - rewrite Hc, H. done.
  - by rewrite reverse_app.
Qed.

Lemma trimEnd_keeps_start s :
  trimStart s = s → trimStart (trimEnd s) = trimEnd s.
Proof.
  intros H. destruct s as [|c s]; [done|].
  assert (Hc : isWhiteSpace c = false).
  { destruct (trimStart_fixed_iff (c :: s)) as [Hf _]. by apply (Hf H c s). }
  rewrite trimEnd_cons_keep by done. cbn. by rewrite Hc.
Qed.

Lemma trim_idem s : trim (trim s) = trim s.
Proof.
  unfold trim.
  rewrite trimEnd_keeps_start by apply trimStart_idem.
  apply trimEnd_idem.
Qed.

(** White space around a string is invisible to [trim]. *)
Lemma trim_surrounded u s v :
  whitespace_only u → whitespace_only v → trim (u ++ s ++ v) = trim s.
Proof.
  intros Hu Hv. unfold trim. rewrite trimStart_app_ws by done.
  destruct (decide (trimStart s = [])) as [H|H].
  - rewrite H. apply trimStart_nil_iff in H.
    assert (Hall : trimStart (s ++ v) = [])
      by by apply trimStart_nil_iff, whitespace_only_app.
    by rewrite Hall.
  - rewrite trimStart_app_keep by done. by apply trimEnd_app_ws.
Qed.

Lemma split_length sep s :
  length (split sep s) = S (length (List.filter (λ c, (c =? sep)%N) s)).
Proof.
  induction s as [|c s IH]; cbn; [done|].
  destruct (c =? sep)%N; cbn; [by rewrite IH|].
  destruct (split sep s) as [|piece pieces]; cbn in *; lia.
Qed.

Lemma nonempty_trimmed x t :
  nonempty (trim <$> x) = Some t → t ≠ [] ∧ trim t = t.
Proof.
  destruct x as [s|]; cbn; [|done].
  destruct (trim s) as [|c r] eqn:E; [done|].
  intros [= <-]. split; [done|]. rewrite <- E. apply trim_idem.
Qed.

Section MoreRuns.

Context {rt : Runtime}.

Lemma generated_title_trimmed o t :
  generated_title o = Some t → t ≠ [] ∧ trim t = t.
Proof.
  destruct o as [|status body]; cbn; [done|].
  case_bool_decide; [|done].
  destruct body as [data|]; cbn; [|done].
  destruct (nonempty (trim <$> field reply_content _)) as [t'|] eqn:E.
  - intros [= <-]. by eapply nonempty_trimmed.
  - apply nonempty_trimmed.
Qed.

End MoreRuns.

(** ** The excerpt builder, continued *)

(** X1: the excerpt of a log that has grown is the old excerpt followed by
    the excerpt of the new messages. *)
Theorem extractConversation_app (older newer : list Message) :
  extractConversation (older ++ newer)
  = extractConversation older ++ extractConversation newer.
Proof.
  unfold extractConversation.
  by rewrite !foldl_extract_step, fmap_app, concat_app.
Qed.

Lemma excerpt_lines_shape msg :
  Forall (λ line, (length line ≤ 306)%nat
                  ∧ (take 6 line = lit "User: "
                     ∨ take 11 line = lit "Assistant: "))
         (excerpt_lines msg).
Proof.
  unfold excerpt_lines.
  repeat (case_bool_decide || case_match); try by constructor.
  - constructor; [|constructor]. split.
    + rewrite length_app, length_take. change (length (lit "User: ")) with 6%nat. lia.
    + left. change 6%nat with (length (lit "User: ")). apply take_app_length.
  - constructor; [|constructor]. split.
    + rewrite length_app, length_take.
      change (length (lit "Assistant: ")) with 11%nat. lia.
    + right. change 11%nat with (length (lit "Assistant: ")). apply take_app_length.
Qed.

(** X2: there are at most as many excerpt lines as messages, and every line
    is "User: " or "Assistant: " followed by at most 300 units of text: no
    line is longer than 306 units. *)
Theorem extractConversation_lines_bounded (messages : list Message) :
  (length (extractConversation messages) ≤ length messages)%nat
  ∧ Forall (λ line, (length line ≤ 306)%nat
                    ∧ (take 6 line = lit "User: "
                       ∨ take 11 line = lit "Assistant: "))
           (extractConversation messages).
Proof.
  unfold extractConversation. rewrite foldl_extract_step. cbn [app].
  split.
  - induction messages as [|m ms IH]; cbn; [done|].
    rewrite length_app.
    assert (length (excerpt_lines m) ≤ 1)%nat; [|lia].
    unfold excerpt_lines. repeat (case_bool_decide || case_match); cbn; lia.
  - apply Forall_concat, Forall_fmap, Forall_forall.
    intros m _. apply excerpt_lines_shape.
Qed.

(** X3: records of any type other than "user" and "assistant" (summaries,
    snapshots, the placeholder of an unparseable line) can be removed from
    the log without changing the excerpt. *)
Theorem extractConversation_ignores_other_types (messages : list Message) :
  extractConversation messages
  = extractConversation
      (List.filter (λ m, bool_decide (msg_type m = lit "user")
                         || bool_decide (msg_type m = lit "assistant"))
                   messages).
Proof.
  unfold extractConversation. rewrite !foldl_extract_step. cbn [app].
  induction messages as [|m ms IH]; [done|].
  cbn [List.filter fmap list_fmap concat].
  destruct (bool_decide (msg_type m = lit "user")
            || bool_decide (msg_type m = lit "assistant")) eqn:E.
  - cbn. by rewrite IH.
  - apply orb_false_iff in E as [E1 E2]. rewrite <- IH.
    unfold excerpt_lines at 1. by rewrite E1, E2.
Qed.

(** ** [prepareConversationText], continued *)

Lemma prepareConversationText_length (c : list jsstr) (maxChars numMessages : Z) :
  3 < maxChars →
  Z.of_nat (length (prepareConversationText c maxChars numMessages)) ≤ maxChars.
Proof.
  intros Hmax. unfold prepareConversationText.
  set (combined := join [nl] _).
  destruct (Z.of_nat (length combined) >? maxChars) eqn:E.
  - apply Z.gtb_lt in E. rewrite slice_suffix by lia.
    rewrite length_app, last_n_length by lia.
    change (length (lit "...")) with 3%nat. lia.
  - rewrite Z.gtb_ltb in E. apply Z.ltb_ge in E. lia.
Qed.

(** X4: for every [maxChars > 3] the text is at most [maxChars] units long,
    whatever the conversation and whatever [numMessages]. *)
Theorem prepareConversationText_bounded
    (c : list jsstr) (maxChars numMessages : Z) :
  3 < maxChars →
  Z.of_nat (length (prepareConversationText c maxChars numMessages)) ≤ maxChars.
Proof. apply prepareConversationText_length. Qed.

Lemma prepareConversationText_bounded_witness :
  Z.of_nat (length (prepareConversationText
                      [replicate 5000 97%N; replicate 5000 98%N]
                      CONFIG.maxChars CONFIG.numMessages)) ≤ 4000.
Proof.
  apply (prepareConversationText_bounded
           [replicate 5000 97%N; replicate 5000 98%N] 4000 10).
  lia.
Defined.

(** X5: only the last [numMessages] lines matter: older lines in front of
    them do not change the text. *)
Theorem prepareConversationText_recent_only
    (older c : list jsstr) (maxChars numMessages : Z) :
  1 ≤ numMessages → numMessages ≤ Z.of_nat (length c) →
  prepareConversationText (older ++ c) maxChars numMessages
  = prepareConversationText c maxChars numMessages.
Proof.
  intros H1 Hn. unfold prepareConversationText.
  rewrite (slice_suffix (older ++ c)), (slice_suffix c) by done.
  unfold last_n. rewrite length_app, drop_app.
  rewrite (drop_ge older) by lia. cbn [app].
  replace (length older + length c - Z.to_nat numMessages - length older)%nat
    with (length c - Z.to_nat numMessages)%nat by lia.
  done.
Qed.

Lemma prepareConversationText_recent_only_witness :
  prepareConversationText
    ([lit "msg1"; lit "msg2"] ++ [lit "msg3"; lit "msg4"; lit "msg5"]) 1000 3
  = prepareConversationText [lit "msg3"; lit "msg4"; lit "msg5"] 1000 3.
Proof.
  apply (prepareConversationText_recent_only
           [lit "msg1"; lit "msg2"] [lit "msg3"; lit "msg4"; lit "msg5"] 1000 3).
  - lia.
  - cbn. lia.
Defined.

(** ** The title generator and the loader, continued *)

Section GeneratorLoaderMore.

Context {rt : Runtime}.

(** X6: a title returned by [generateTitle] is never empty and carries no
    white space at either end. *)
Theorem generateTitle_trimmed (conversation : jsstr) (w : World) (t : jsstr) :
  (generateTitle conversation w).1 = Val (Some t) →
  t ≠ [] ∧ trim t = t.
Proof.
  destruct (generateTitle_run conversation w) as (w' & -> & _).
  intros [= H]. by eapply generated_title_trimmed.
Qed.

(** X7: whatever the endpoint does, [generateTitle] sends exactly one
    request, the prompt template with the conversation in the middle, and
    touches neither the files nor the clock: a failed call is not
    retried. *)
Theorem generateTitle_one_request (conversation : jsstr) (w : World) :
  let w' := (generateTitle conversation w).2 in
  requests w' = requests w ++ [TITLE_PROMPT conversation]
  ∧ (∃ before after, ∀ c, TITLE_PROMPT c = before ++ c ++ after)
  ∧ files w' = files w
  ∧ writes w' = writes w
  ∧ ticks w' = ticks w.
Proof.
  destruct (generateTitle_run conversation w)
    as (w' & -> & Hreq & Htick & Hf & _ & Hw).
  cbn. split_and!; [done| |done|done|done].
  exists (lit "Generate a concise 3-6 word title summarizing this conversation:"
          ++ [nl; nl]),
         ([nl; nl]
          ++ lit "Reply with ONLY the title, no quotes or explanation. /no_think").
  intros c. unfold TITLE_PROMPT. by rewrite <- app_assoc.
Qed.

(** X8: [loadSessionMessages] never throws and leaves the world as it is;
    for a file that exists it returns one record per line of the trimmed
    content, hence at least one record. *)
Theorem loadSessionMessages_one_record_per_line (path : jsstr) (w : World) :
  (∃ ms, loadSessionMessages path w = (Val ms, w))
  ∧ ∀ content,
      files w !! path = Some content →
      ∃ ms,
        loadSessionMessages path w = (Val ms, w)
        ∧ length ms
          = S (length (List.filter (λ c, (c =? nl)%N) (trim content))).
Proof.
  rewrite loadSessionMessages_run. split; [eauto|].
  intros content Hread. eexists. split; [reflexivity|].
  unfold log_messages. rewrite Hread.
  by rewrite length_fmap, split_length.
Qed.

(** X9: white space around the content of a log (a final newline, blank
    lines at either end) does not change the records loaded from it. *)
Theorem loadSessionMessages_ignores_surrounding_blank
    (path path' : jsstr) (w w' : World) (content before after : jsstr) :
  whitespace_only before → whitespace_only after →
  files w !! path = Some content →
  files w' !! path' = Some (before ++ content ++ after) →
  (loadSessionMessages path' w').1 = (loadSessionMessages path w).1.
Proof.
  intros Hb Ha Hread Hread'. rewrite !loadSessionMessages_run. cbn.
  unfold log_messages. rewrite Hread, Hread'.
  by rewrite trim_surrounded.
Qed.

End GeneratorLoaderMore.

Lemma generateTitle_trimmed_witness :
  ∃ t,
    (generateTitle (rt := Demo.runtime) (lit "User: How do I set up Docker?")
                   Demo.world).1 = Val (Some t)
    ∧ t ≠ [] ∧ trim t = t.
Proof.
  exists (lit "Docker Setup Help").
  assert (H : (generateTitle (rt := Demo.runtime)
                 (lit "User: How do I set up Docker?") Demo.world).1
              = Val (Some (lit "Docker Setup Help")))
    by (vm_compute; reflexivity).
  split; [exact H|].
  exact (generateTitle_trimmed (rt := Demo.runtime) _ _ _ H).
Defined.

Lemma loadSessionMessages_one_record_per_line_witness :
  ∃ ms,
    loadSessionMessages (rt := Demo.runtime) (lit "/logs/stale.jsonl") Demo.world
    = (Val ms, Demo.world)
    ∧ length ms = 3%nat.
Proof.
  destruct (loadSessionMessages_one_record_per_line (rt := Demo.runtime)
              (lit "/logs/stale.jsonl") Demo.world) as [_ H].
  destruct (H (join [nl] [lit "U:Refactor the parser"; lit "garbage";
                          lit "A:Here is a plan."]))
    as (ms & Hrun & Hlen).
  - vm_compute. reflexivity.
  - exists ms. split; [exact Hrun|]. rewrite Hlen. vm_compute. reflexivity.
Defined.

(** The same log with a final newline, at another path. *)
Lemma loadSessionMessages_ignores_surrounding_blank_witness :
  let content := lit "U:An old session" in
  let w' := with_files Demo.world
              (<[lit "/logs/copy.jsonl" := content ++ [nl]]> (files Demo.world)) in
  (loadSessionMessages (rt := Demo.runtime) (lit "/logs/copy.jsonl") w').1
  = (loadSessionMessages (rt := Demo.runtime) (lit "/logs/legacy.jsonl") Demo.world).1.
Proof.
  intros content w'.
  apply (loadSessionMessages_ignores_surrounding_blank (rt := Demo.runtime)
           (lit "/logs/legacy.jsonl") (lit "/logs/copy.jsonl") Demo.world w'
           content [] [nl]).
  - constructor.
  - repeat constructor.
  - vm_compute. reflexivity.
  - vm_compute. reflexivity.
Defined.

(** ** The index updater, continued *)

Lemma filter_sublist {A : Type} (f : A → bool) (l : list A) :
  sublist (List.filter f l) l.
Proof.
  induction l as [|x l IH]; cbn; [constructor|].
  destruct (f x); by constructor.
Qed.

Section UpdaterMore.

Context {rt : Runtime}.

Lemma findSessionsIndex_listed w projects :
  dirs w !! CONFIG.projectsDir = Some projects →
  findSessionsIndex w = (Val (discovered w), w).
Proof.
  intros Hd. unfold findSessionsIndex, discovered. unfold try_catch at 1.
  rewrite bind_run. unfold readdir. rewrite Hd.
  pose proof (probe_loop_run projects [] w) as Hloop.
  unfold index_path in Hloop. by rewrite Hloop.
Qed.

Lemma findSessionsIndex_unlisted w :
  dirs w !! CONFIG.projectsDir = None →
  findSessionsIndex w
  = (Val [], with_console w
               (console w ++ [ErrReadingProjectsDir (ENOENT CONFIG.projectsDir)])).
Proof.
  intros Hd. unfold findSessionsIndex. unfold try_catch at 1.
  rewrite bind_run. unfold readdir. by rewrite Hd.
Qed.

(** X10: discovery never throws and changes nothing but the console.  The
    paths it returns can all be read, and they are index paths of listed
    projects, in the order of the listing; when the projects directory
    cannot be listed it prints the error and returns no path. *)
Theorem findSessionsIndex_total (w : World) :
  ∃ found w',
    findSessionsIndex w = (Val found, w')
    ∧ same_but_console w w'
    ∧ Forall (λ p, is_Some (files w !! p)) found
    ∧ match dirs w !! CONFIG.projectsDir with
      | Some projects =>
          sublist found
            ((λ project, path_join CONFIG.projectsDir project
                           (lit "sessions-index.json")) <$> projects)
          ∧ w' = w
      | None =>
          found = []
          ∧ console w'
            = console w ++ [ErrReadingProjectsDir (ENOENT CONFIG.projectsDir)]
      end.
Proof.
  destruct (dirs w !! CONFIG.projectsDir) as [projects|] eqn:Hd.
  - rewrite (findSessionsIndex_listed w projects Hd).
    eexists _, _. split; [reflexivity|].
    split; [apply same_but_console_refl|].
    split; [apply discovered_readable|].
    split; [|done]. unfold discovered. rewrite Hd. apply filter_sublist.
  - rewrite (findSessionsIndex_unlisted w Hd).
    eexists _, _. split; [reflexivity|].
    split; [apply with_console_same|]. by split.
Qed.


Lemma processIndexFile_frame (indexPath : jsstr) (dryRun : bool) (w : World) :
  let w' := (processIndexFile indexPath dryRun w).2 in
  dirs w' = dirs w
  ∧ (∀ q, q ≠ indexPath → files w' !! q = files w !! q)
  ∧ (dryRun = true →
     same_disk w w' ∧ requests w' = requests w ∧ ticks w' = ticks w).
Proof.
  destruct (files w !! indexPath) as [c|] eqn:Hread.
  - destruct (JSON_parse_index c) as [index|] eqn:Hparse.
    + destruct (processIndexFile_parsed indexPath dryRun w c index Hread Hparse)
        as (w' & -> & Hd & Hreq & Htick & Hwrite).
      cbn. split; [done|]. split.
      * intros q Hq. destruct (bool_decide _ && negb dryRun);
          destruct Hwrite as [-> _]; [|done].
        by rewrite lookup_insert_ne.
      * intros ->. rewrite andb_false_r in Hwrite. destruct Hwrite as [Hf Hw].
        destruct (retitled_dry_run (files w) (entries index)
                    (length (requests w)) (ticks w)) as [_ Hn].
        rewrite Hn in Htick.
        rewrite prompts_sent_dry_run, app_nil_r in Hreq.
        repeat split; [done|done|done|done|lia].
    + rewrite (processIndexFile_malformed _ _ _ _ Hread Hparse). cbn.
      by repeat split.
  - rewrite (processIndexFile_unreadable _ _ _ Hread). cbn. by repeat split.
Qed.

(** X12: whatever happens, [processIndexFile] changes no file other than
    the index file it was given (no session log, no other index) and no
    directory. *)
Theorem processIndexFile_other_files_untouched
    (indexPath : jsstr) (dryRun : bool) (w : World) (q : jsstr) :
  q ≠ indexPath →
  let w' := (processIndexFile indexPath dryRun w).2 in
  files w' !! q = files w !! q ∧ dirs w' = dirs w.
Proof.
  intros Hq w'. destruct (processIndexFile_frame indexPath dryRun w) as (Hd & Hf & _).
  split; [by apply Hf|done].
Qed.

Lemma retitled_count_le dryRun fs es : ∀ k,
  (retitled_count dryRun fs k es ≤ asked dryRun fs es)%nat.
Proof.
  unfold asked. induction es as [|e es IH]; intros k; cbn; [done|].
  destruct (new_title dryRun fs k e) as [ttl|] eqn:E.
  - rewrite (new_title_asks _ _ _ _ _ E). cbn.
    specialize (IH (S k)). lia.
  - destruct (asks_model dryRun fs e); cbn;
      [specialize (IH (S k))|specialize (IH k)]; lia.
Qed.

Lemma asked_le dryRun fs es : (asked dryRun fs es ≤ length es)%nat.
Proof.
  unfold asked. induction es as [|e es IH]; cbn; [done|].
  destruct (asks_model dryRun fs e); cbn; lia.
Qed.

(** X13: on an index that reads and parses, the number of updated entries
    returned is at most the number of requests sent, which is at most the
    number of entries; the clock is read once per updated entry. *)
Theorem processIndexFile_counts
    (indexPath : jsstr) (dryRun : bool) (w : World) (c : jsstr) (index : SessionIndex) :
  files w !! indexPath = Some c →
  JSON_parse_index c = Some index →
  ∃ n w' sent,
    processIndexFile indexPath dryRun w = (Val n, w')
    ∧ requests w' = requests w ++ sent
    ∧ (n ≤ length sent ≤ length (entries index))%nat
    ∧ ticks w' = (ticks w + n)%nat.
Proof.
  intros Hread Hparse.
  destruct (processIndexFile_parsed indexPath dryRun w c index Hread Hparse)
    as (w' & Hrun & _ & Hreq & Htick & _).
  eexists _, w', _. split; [exact Hrun|]. split; [exact Hreq|].
  split; [|done].
  unfold prompts_sent. rewrite length_fmap.
  fold (asked dryRun (files w) (entries index)).
  split; [apply retitled_count_le|apply asked_le].
Qed.

(** X14: every prompt [processIndexFile] sends is the prompt template
    around a text of at most 4000 units. *)
Theorem processIndexFile_prompts_bounded
    (indexPath : jsstr) (dryRun : bool) (w : World) (c : jsstr) (index : SessionIndex) :
  files w !! indexPath = Some c →
  JSON_parse_index c = Some index →
  ∃ sent,
    requests (processIndexFile indexPath dryRun w).2 = requests w ++ sent
    ∧ Forall (λ prompt, ∃ text, prompt = TITLE_PROMPT text
                                ∧ (length text ≤ 4000)%nat) sent.
Proof.
  intros Hread Hparse.
  destruct (processIndexFile_parsed indexPath dryRun w c index Hread Hparse)
    as (w' & -> & _ & Hreq & _).
  eexists. split; [exact Hreq|].
  unfold prompts_sent. apply Forall_fmap, Forall_forall. intros e _. cbn.
  exists (excerpt_text (files w) e). split; [done|].
  assert (H : Z.of_nat (length (excerpt_text (files w) e)) ≤ 4000).
  { apply (prepareConversationText_length (excerpt (files w) e)
             4000 CONFIG.numMessages). lia. }
  lia.
Qed.


End UpdaterMore.

Section UpdaterMoreExamples.

Local Existing Instance Demo.runtime.


(** A live pass over the example index leaves the session logs alone. *)
Lemma processIndexFile_other_files_untouched_witness :
  files (processIndexFile Demo.good_index_path false Demo.world).2
    !! lit "/logs/docker.jsonl"
  = files Demo.world !! lit "/logs/docker.jsonl".
Proof.
  apply (processIndexFile_other_files_untouched
           Demo.good_index_path false Demo.world (lit "/logs/docker.jsonl")).
  vm_compute. discriminate.
Defined.

Lemma processIndexFile_counts_witness :
  ∃ n w' sent,
    processIndexFile Demo.good_index_path false Demo.world = (Val n, w')
    ∧ requests w' = requests Demo.world ++ sent
    ∧ (n ≤ length sent ≤ 5)%nat
    ∧ ticks w' = (ticks Demo.world + n)%nat.
Proof.
  exact (processIndexFile_counts Demo.good_index_path false Demo.world
           (lit "{good index}") Demo.good_index
           good_index_read good_index_parsed).
Defined.

Lemma processIndexFile_prompts_bounded_witness :
  ∃ sent,
    requests (processIndexFile Demo.good_index_path false Demo.world).2
    = requests Demo.world ++ sent
    ∧ Forall (λ prompt, ∃ text, prompt = TITLE_PROMPT text
                                ∧ (length text ≤ 4000)%nat) sent.
Proof.
  exact (processIndexFile_prompts_bounded Demo.good_index_path false Demo.world
           (lit "{good index}") Demo.good_index
           good_index_read good_index_parsed).
Defined.


End UpdaterMoreExamples.

(** ** The run orchestrator, continued *)

Section OrchestratorMore.

Context {rt : Runtime}.

Lemma runOnce_after_discovery (dryRun : bool) (w : World) :
  ∃ w0,
    same_but_console w w0
    ∧ runOnce dryRun w
      = (totalUpdated ← for_of (discovered w) 0%nat (λ totalUpdated indexPath,
           n ← processIndexFile indexPath dryRun;
           mret (totalUpdated + n)%nat);
         console_log (LogDone totalUpdated)) w0.
Proof.
  unfold runOnce.
  rewrite bind_run, console_log_run.
  rewrite bind_run, console_log_run.
  rewrite bind_run.
  match goal with |- context [findSessionsIndex ?w1] =>
    destruct (findSessionsIndex_run w1) as (w2 & -> & Hsame & _)
  end.
  assert (Hdisc : ∀ c1 c2,
    discovered (with_console (with_console w c1) c2) = discovered w) by done.
  rewrite Hdisc. rewrite bind_run, console_log_run.
  eexists. split; [|reflexivity].
  eapply same_but_console_trans; [|apply with_console_same].
  eapply same_but_console_trans; [|exact Hsame].
  eapply same_but_console_trans; apply with_console_same.
Qed.

(** X16: when the projects directory cannot be listed, [runOnce] does not
    fail: it prints the error, finds no index file, reports zero updated
    sessions and has sent and written nothing. *)
Theorem runOnce_missing_projects_dir (dryRun : bool) (w : World) :
  dirs w !! CONFIG.projectsDir = None →
  ∃ w',
    runOnce dryRun w = (Val tt, w')
    ∧ same_disk w w'
    ∧ requests w' = requests w
    ∧ console w'
      = console w ++ [LogBanner; LogMode dryRun;
                      ErrReadingProjectsDir (ENOENT CONFIG.projectsDir);
                      LogFoundIndexFiles 0; LogDone 0].
Proof.
  intros Hd. unfold runOnce.
  rewrite bind_run, console_log_run.
  rewrite bind_run, console_log_run.
  rewrite bind_run, findSessionsIndex_unlisted by done.
  rewrite bind_run, console_log_run.
  rewrite bind_run. cbn [for_of mret M_ret length].
  rewrite console_log_run.
  eexists. split; [reflexivity|]. cbn.
  split; [by repeat split|]. split; [done|].
  by rewrite <- !app_assoc.
Qed.

Lemma index_loop_dry_run (l : list jsstr) : ∀ (total : nat) (w : World),
  ∃ r w',
    for_of l total (λ totalUpdated indexPath,
      n ← processIndexFile indexPath true;
      mret (totalUpdated + n)%nat) w = (r, w')
    ∧ same_disk w w' ∧ requests w' = requests w ∧ ticks w' = ticks w.
Proof.
  induction l as [|p l IH]; intros total w.
  { eexists _, _. split; [reflexivity|]. by repeat split. }
  cbn [for_of]. rewrite bind_run, bind_run.
  destruct (processIndexFile_frame p true w) as (_ & _ & Hdry).
  destruct (Hdry eq_refl) as ((Hf & Hd & Hw) & Hreq & Htick).
  destruct (processIndexFile p true w) as [[n|e] w1] eqn:Hrun; cbn in *.
  - destruct (IH (total + n)%nat w1)
      as (r & w' & -> & (Hf' & Hd' & Hw') & Hreq' & Htick').
    eexists _, _. split; [reflexivity|]. repeat split; congruence.
  - eexists _, _. split; [reflexivity|]. by repeat split.
Qed.

(** X17: a dry run never sends a request, never writes a file and never
    reads the clock, whether it completes or stops at an index file it
    cannot parse. *)
Theorem runOnce_dry_run_no_effects (w : World) :
  let w' := (runOnce true w).2 in
  requests w' = requests w
  ∧ files w' = files w
  ∧ dirs w' = dirs w
  ∧ writes w' = writes w
  ∧ ticks w' = ticks w.
Proof.
  destruct (runOnce_after_discovery true w)
    as (w0 & ((Hf & Hd & Hw) & Hreq & Htick) & ->).
  rewrite bind_run.
  destruct (index_loop_dry_run (discovered w) 0%nat w0)
    as (r & w1 & -> & (Hf1 & Hd1 & Hw1) & Hreq1 & Htick1).
  destruct r as [total|e]; cbn; repeat split; congruence.
Qed.



End OrchestratorMore.

(** ** The eligibility policy, continued *)

Section EligibilityMore.

Context {rt : Runtime}.

(** X19: once an entry has been given a title, it is selected again only
    if its prompt and message count still qualify and its [modified]
    timestamp is strictly later than the time of titling. *)
Theorem set_title_eligibility (e : SessionIndexEntry) (ttl at_ : jsstr) :
  ttl ≠ [] → at_ ≠ [] →
  (shouldProcessSession (set_title e ttl at_) = true
   ↔ ¬ degenerate_prompt (firstPrompt e)
     ∧ 3 ≤ messageCount e
     ∧ strictly_later (modified e) at_).
Proof.
  intros Ht Ha. unfold shouldProcessSession, needsRetitling. cbn.
  destruct ttl as [|c1 t1]; [done|]. destruct at_ as [|c2 a2]; [done|]. cbn.
  rewrite <- num_gt_true_iff.
  destruct (negb (truthy (trim (firstPrompt e))) || _) eqn:Ep.
  - split; [done|]. intros (Hd & _). by apply degenerate_prompt_test in Ep.
  - assert (Hd : ¬ degenerate_prompt (firstPrompt e)).
    { intros Hd%degenerate_prompt_test. congruence. }
    destruct (messageCount e <? 3) eqn:Ec.
    + apply Z.ltb_lt in Ec. split; [done|]. intros (_ & ? & _). lia.
    + apply Z.ltb_ge in Ec.
      destruct (num_gt _ _); split; try done; by intros (_ & _ & ?).
Qed.




End EligibilityMore.

Section OrchestratorMoreExamples.

Local Existing Instance Demo.runtime.

(** A machine without a projects directory. *)
Lemma runOnce_missing_projects_dir_witness :
  let w := {| files := ∅; dirs := ∅; requests := []; writes := [];
              ticks := 0; console := [] |} in
  ∃ w',
    runOnce false w = (Val tt, w')
    ∧ console w'
      = [LogBanner; LogMode false;
         ErrReadingProjectsDir (ENOENT CONFIG.projectsDir);
         LogFoundIndexFiles 0; LogDone 0].
Proof.
  intros w.
  destruct (runOnce_missing_projects_dir false w) as (w' & Hrun & _ & _ & Hc).
  - reflexivity.
  - exists w'. split; [exact Hrun|exact Hc].
Defined.


(** Titled at midnight of the next day, the session modified at noon is
    not selected again. *)
Lemma set_title_eligibility_witness :
  shouldProcessSession
    (set_title Demo.docker_session (lit "Docker Setup Help") (Demo.clock 0))
  ≠ true.
Proof.
  intros H.
  apply (set_title_eligibility Demo.docker_session
           (lit "Docker Setup Help") (Demo.clock 0)) in H.
  - destruct H as (_ & _ & H). vm_compute in H. discriminate H.
  - vm_compute. discriminate.
  - vm_compute. discriminate.
Defined.

End OrchestratorMoreExamples.

(** * The picker's library *)

(** ** [folderNameToPath] *)

Section FolderNames.

Import Lib.

Local Arguments dash : simpl never.
Local Arguments slash : simpl never.

Lemma replace_dashes_leading s :
  replace_dashes (replace_leading_dash s) = replace_dashes s.
Proof.
  destruct s as [|c s]; cbn; [done|].
  destruct (c =? dash)%N eqn:E; cbn; [done|by rewrite E].
Qed.

Lemma replace_dashes_fixed s : dash ∉ s → replace_dashes s = s.
Proof.
  unfold replace_dashes. induction s as [|c s IH]; cbn; [done|].
  intros H. apply not_elem_of_cons in H as [Hc Hs].
  rewrite IH by done.
  destruct (c =? dash)%N eqn:E; [|done]. apply N.eqb_eq in E. congruence.
Qed.

Lemma replace_dashes_no_dash s : dash ∉ replace_dashes s.
Proof.
  unfold replace_dashes. induction s as [|c s IH]; cbn.
  - apply not_elem_of_nil.
  - apply not_elem_of_cons. split; [|done].
    destruct (c =? dash)%N eqn:E; [done|]. apply N.eqb_neq in E. congruence.
Qed.

(** X21: [folderNameToPath] keeps the length of the name, turns every dash
    into a slash and leaves every other unit where it is; its result never
    contains a dash, and applying it twice is the same as applying it
    once. *)
Theorem folderNameToPath_shape (folderName : jsstr) :
  length (folderNameToPath folderName) = length folderName
  ∧ (∀ i c, folderName !! i = Some c →
       folderNameToPath folderName !! i
       = Some (if bool_decide (c = dash) then slash else c))
  ∧ (dash ∉ folderNameToPath folderName)
  ∧ folderNameToPath (folderNameToPath folderName) = folderNameToPath folderName.
Proof.
  unfold folderNameToPath. rewrite !replace_dashes_leading.
  split_and!.
  - unfold replace_dashes. by rewrite length_fmap.
  - intros i c Hi. unfold replace_dashes. rewrite list_lookup_fmap, Hi. cbn.
    f_equal. case_bool_decide as Hc.
    + subst. by rewrite N.eqb_refl.
    + apply N.eqb_neq in Hc. by rewrite Hc.
  - apply replace_dashes_no_dash.
  - apply replace_dashes_fixed, replace_dashes_no_dash.
Qed.

(** X22: a project path is recovered from its folder name (the path with
    every slash written as a dash) exactly when the path contains no dash:
    a hyphen in a directory name breaks the round trip. *)
Theorem folderNameToPath_round_trip (path : jsstr) :
  folderNameToPath (folder_name_of path) = path ↔ dash ∉ path.
Proof.
  unfold folderNameToPath. rewrite replace_dashes_leading. split.
  - intros <-. apply replace_dashes_no_dash.
  - unfold replace_dashes, folder_name_of.
    induction path as [|c path IH]; cbn; [done|].
    intros H. apply not_elem_of_cons in H as [Hc Hs].
    rewrite IH by done. f_equal.
    destruct (c =? slash)%N eqn:E1.
    + apply N.eqb_eq in E1. by subst.
    + destruct (c =? dash)%N eqn:E2; [|done].
      apply N.eqb_eq in E2. congruence.
Qed.

(** The names of the unit tests, and the project with a hyphen of the
    integration data. *)
Example folderNameToPath_tests :
  folderNameToPath (lit "-home-simon") = lit "/home/simon"
  ∧ folderNameToPath (lit "-home-simon-github-project")
    = lit "/home/simon/github/project"
  ∧ folderNameToPath (lit "-tmp") = lit "/tmp"
  ∧ folderNameToPath (folder_name_of (lit "/home/user/project-a"))
    = lit "/home/user/project/a".
Proof. vm_compute. done. Qed.

End FolderNames.

(** ** [truncate] *)

Section Truncate.

Import Lib.

Lemma single_spaced_weaken b s :
  single_spaced true s = true → single_spaced b s = true.
Proof.
  destruct s as [|c s]; cbn; [done|].
  destruct (isWhiteSpace c); [|done].
  rewrite andb_false_r. done.
Qed.

Lemma collapse_ws_single_spaced s : ∀ b,
  single_spaced b (collapse_ws b s) = true.
Proof.
  induction s as [|c s IH]; intros b; cbn; [done|].
  destruct (isWhiteSpace c) eqn:E.
  - destruct b; [apply IH|]. cbn. by rewrite IH.
  - cbn. rewrite E. apply IH.
Qed.

Lemma single_spaced_trimStart b s :
  single_spaced b s = true → single_spaced true (trimStart s) = true.
Proof.
  revert b. induction s as [|c s IH]; intros b; cbn; [done|].
  destruct (isWhiteSpace c) eqn:E.
  - intros H. apply andb_true_iff in H as [_ H]. by eapply IH.
  - cbn. by rewrite E.
Qed.

Lemma single_spaced_prefix s t : ∀ b,
  single_spaced b (s ++ t) = true → single_spaced b s = true.
Proof.
  induction s as [|c s IH]; intros b; cbn; [done|].
  destruct (isWhiteSpace c).
  - intros H. apply andb_true_iff in H as [H1 H2].
    rewrite H1. by apply IH.
  - apply IH.
Qed.

Lemma single_spaced_snoc s c : ∀ b,
  isWhiteSpace c = false →
  single_spaced b s = true → single_spaced b (s ++ [c]) = true.
Proof.
  intros b Hc. revert b. induction s as [|d s IH]; intros b; cbn.
  - by rewrite Hc.
  - destruct (isWhiteSpace d).
    + intros H. apply andb_true_iff in H as [H1 H2].
      rewrite H1. by apply IH.
    + apply IH.
Qed.

Lemma trimStart_suffix s : ∃ u, s = u ++ trimStart s ∧ whitespace_only u.
Proof.
  induction s as [|c s (u & Hs & Hu)]; cbn.
  - exists []. split; [done|constructor].
  - destruct (isWhiteSpace c) eqn:E.
    + exists (c :: u). split; [cbn; by f_equal|by constructor].
    + exists []. split; [done|constructor].
Qed.

Lemma trimEnd_prefix s : ∃ u, s = trimEnd s ++ u.
Proof.
  destruct (trimStart_suffix (reverse s)) as (u & Hs & _).
  exists (reverse u). unfold trimEnd.
  apply (f_equal reverse) in Hs.
  by rewrite reverse_involutive, reverse_app in Hs.
Qed.

Lemma slice_from_start_prefix {A : Type} (l : list A) (e : Z) :
  ∃ n, slice l 0 (Some e) = take n l.
Proof.
  unfold slice, rel_index. change (0 <? 0) with false. cbv iota.
  replace (Z.min 0 (Z.of_nat (length l))) with 0 by lia.
  change (Z.to_nat 0) with 0%nat. rewrite drop_0. eauto.
Qed.

Lemma cleaned_single_spaced str :
  single_spaced true (trim (collapse_ws false str)) = true.
Proof.
  unfold trim.
  destruct (trimEnd_prefix (trimStart (collapse_ws false str))) as (u & Hu).
  apply (single_spaced_prefix _ u). rewrite <- Hu.
  eapply single_spaced_trimStart, collapse_ws_single_spaced.
Qed.

Lemma ellipsis_not_space : isWhiteSpace ellipsis = false.
Proof. reflexivity. Qed.

Lemma truncate_spaced str maxLen :
  single_spaced true (truncate str maxLen) = true.
Proof.
  unfold truncate. pose proof (cleaned_single_spaced str) as H.
  destruct (_ <=? maxLen); [done|].
  destruct (slice_from_start_prefix (trim (collapse_ws false str)) (maxLen - 1))
    as (n & ->).
  apply single_spaced_snoc; [apply ellipsis_not_space|].
  apply (single_spaced_prefix _ (drop n (trim (collapse_ws false str)))).
  by rewrite take_drop.
Qed.

Lemma truncate_length str maxLen :
  1 ≤ maxLen → Z.of_nat (length (truncate str maxLen)) ≤ maxLen.
Proof.
  intros Hmax. unfold truncate.
  destruct (_ <=? maxLen) eqn:E.
  - by apply Z.leb_le in E.
  - apply Z.leb_gt in E. rewrite slice_prefix by lia.
    rewrite length_app, length_take. cbn. lia.
Qed.

(** X23: for [maxLen >= 1] the result of [truncate] is at most [maxLen]
    units long. *)
Theorem truncate_bounded (str : jsstr) (maxLen : Z) :
  1 ≤ maxLen → Z.of_nat (length (truncate str maxLen)) ≤ maxLen.
Proof. apply truncate_length. Qed.

(** X24: whatever [maxLen], the result of [truncate] does not start with
    white space, and the only white space in it is single spaces: tabs,
    newlines and runs of blanks of the input are gone. *)
Theorem truncate_single_spaced (str : jsstr) (maxLen : Z) :
  single_spaced true (truncate str maxLen) = true.
Proof. apply truncate_spaced. Qed.

Lemma collapse_ws_fixed s : ∀ b,
  single_spaced b s = true → collapse_ws b s = s.
Proof.
  induction s as [|c s IH]; intros b; cbn; [done|].
  destruct (isWhiteSpace c).
  - intros H. apply andb_true_iff in H as [H1 H2].
    apply andb_true_iff in H1 as [Hc Hb].
    apply N.eqb_eq in Hc as ->. destruct b; [done|].
    by rewrite IH.
  - intros H. by rewrite IH.
Qed.

Lemma single_spaced_trimStart_fixed s :
  single_spaced true s = true → trimStart s = s.
Proof.
  destruct s as [|c s]; cbn; [done|].
  destruct (isWhiteSpace c); [|done].
  by rewrite andb_false_r.
Qed.

Lemma trimEnd_snoc_keep s c :
  isWhiteSpace c = false → trimEnd (s ++ [c]) = s ++ [c].
Proof.
  intros Hc. unfold trimEnd. rewrite reverse_app, reverse_singleton.
  cbn [app trimStart]. rewrite Hc.
  by rewrite reverse_cons, reverse_involutive.
Qed.

(** X25: for [maxLen >= 1], truncating a truncated string again changes
    nothing. *)
Theorem truncate_idempotent (str : jsstr) (maxLen : Z) :
  1 ≤ maxLen →
  truncate (truncate str maxLen) maxLen = truncate str maxLen.
Proof.
  intros Hmax.
  pose proof (truncate_spaced str maxLen) as Hsp.
  pose proof (truncate_length str maxLen Hmax) as Hlen.
  assert (Hclean : trim (collapse_ws false (truncate str maxLen))
                   = truncate str maxLen).
  { rewrite collapse_ws_fixed by by apply single_spaced_weaken.
    unfold truncate in *.
    destruct (_ <=? maxLen); [apply trim_idem|].
    unfold trim. rewrite single_spaced_trimStart_fixed by done.
    apply trimEnd_snoc_keep, ellipsis_not_space. }
  unfold truncate at 1. rewrite Hclean.
  by rewrite (proj2 (Z.leb_le _ _) Hlen).
Qed.

Lemma truncate_bounded_witness :
  Z.of_nat (length (truncate (replicate 100 97%N) 60)) ≤ 60.
Proof. apply (truncate_bounded (replicate 100 97%N) 60). lia. Defined.

Lemma truncate_idempotent_witness :
  let s := lit "hello world this is a long string" in
  truncate (truncate s 15) 15 = truncate s 15.
Proof.
  intros s. apply (truncate_idempotent s 15). lia.
Defined.

(** The unit tests of [truncate], and the length at [maxLen = 0], where
    the last unit is dropped and the ellipsis added. *)
Example truncate_tests :
  truncate (lit "hello") 10 = lit "hello"
  ∧ truncate (lit "hello world this is a long string") 15
    = lit "hello world th" ++ [ellipsis]
  ∧ truncate (lit "hello   world" ++ [10; 9]%N ++ lit "test") 50
    = lit "hello world test"
  ∧ truncate (lit "  hello  ") 10 = lit "hello"
  ∧ truncate (lit "hello") 5 = lit "hello"
  ∧ truncate (lit "hello") 0 = lit "hell" ++ [ellipsis].
Proof. vm_compute. done. Qed.

End Truncate.

(** ** [formatRelativeTime] and [sessionsToOptions] *)

Section Options.

Import Lib.

Context {rt : Runtime} {host : Host}.

(** Linear arithmetic with division by constants. *)
Ltac div_lia := Z.div_mod_to_equations; lia.

(** X26: the buckets of [formatRelativeTime], in milliseconds of age.  A
    timestamp less than a minute old, or in the future, reads "just now";
    up to an hour it reads 1 to 59 minutes, up to a day 1 to 23 hours, up
    to a week 1 to 6 days; from seven days on, and for a timestamp that is
    not a number, the date is printed. *)
Theorem formatRelativeTime_buckets (timestamp : num) (now : Z) :
  match timestamp with
  | None => formatRelativeTime None (Some now) = toLocaleDateString None
  | Some t =>
      let age := now - t in
      (age < 60000 → formatRelativeTime (Some t) (Some now) = lit "just now")
      ∧ (60000 ≤ age < 3600000 →
         formatRelativeTime (Some t) (Some now)
         = lit (pretty (age / 60000)) ++ lit "m ago"
         ∧ 1 ≤ age / 60000 ≤ 59)
      ∧ (3600000 ≤ age < 86400000 →
         formatRelativeTime (Some t) (Some now)
         = lit (pretty (age / 3600000)) ++ lit "h ago"
         ∧ 1 ≤ age / 3600000 ≤ 23)
      ∧ (86400000 ≤ age < 604800000 →
         formatRelativeTime (Some t) (Some now)
         = lit (pretty (age / 86400000)) ++ lit "d ago"
         ∧ 1 ≤ age / 86400000 ≤ 6)
      ∧ (604800000 ≤ age →
         formatRelativeTime (Some t) (Some now) = toLocaleDateString (Some t))
  end.
Proof.
  destruct timestamp as [t|]; [|done].
  intros age. unfold formatRelativeTime. cbn. fold age.
  split_and!; intros Hage.
  - rewrite (proj2 (Z.ltb_lt _ _)) by div_lia. done.
  - rewrite (proj2 (Z.ltb_ge _ _)) by div_lia.
    rewrite (proj2 (Z.ltb_lt (age / 60000) 60)) by div_lia.
    split; [done|div_lia].
  - rewrite (proj2 (Z.ltb_ge (age / 60000) 1)) by div_lia.
    rewrite (proj2 (Z.ltb_ge (age / 60000) 60)) by div_lia.
    rewrite (proj2 (Z.ltb_lt (age / 3600000) 24)) by div_lia.
    split; [done|div_lia].
  - rewrite (proj2 (Z.ltb_ge (age / 60000) 1)) by div_lia.
    rewrite (proj2 (Z.ltb_ge (age / 60000) 60)) by div_lia.
    rewrite (proj2 (Z.ltb_ge (age / 3600000) 24)) by div_lia.
    rewrite (proj2 (Z.ltb_lt (age / 86400000) 7)) by div_lia.
    split; [done|div_lia].
  - rewrite (proj2 (Z.ltb_ge (age / 60000) 1)) by div_lia.
    rewrite (proj2 (Z.ltb_ge (age / 60000) 60)) by div_lia.
    rewrite (proj2 (Z.ltb_ge (age / 3600000) 24)) by div_lia.
    rewrite (proj2 (Z.ltb_ge (age / 86400000) 7)) by div_lia.
    done.
Qed.

Lemma replace_first_prefix pat rep rest :
  replace_first pat rep (pat ++ rest) = rep ++ rest.
Proof.
  destruct (pat ++ rest) as [|c s] eqn:E; cbn [replace_first]; rewrite <- E.
  - rewrite take_app_length, bool_decide_eq_true_2 by done.
    by rewrite drop_app_length.
  - rewrite take_app_length, bool_decide_eq_true_2 by done.
    by rewrite drop_app_length.
Qed.

(** X27: [sessionsToOptions] makes one option per session, in order; the
    name of an option is at most 60 units long and single-spaced; and for
    a project under the home directory the description starts with "~" in
    place of the home directory. *)
Theorem sessionsToOptions_shape (sessions : list Session) (now : num) :
  length (sessionsToOptions sessions now) = length sessions
  ∧ ∀ i s, sessions !! i = Some s →
      ∃ o, sessionsToOptions sessions now !! i = Some o
           ∧ name o = truncate (title s) 60
           ∧ (length (name o) ≤ 60)%nat
           ∧ single_spaced true (name o) = true
           ∧ ∀ rest, project s = homedir ++ rest →
               ∃ tail, description o = lit "~" ++ rest ++ tail.
Proof.
  unfold sessionsToOptions. split; [by rewrite length_fmap|].
  intros i s Hi. rewrite list_lookup_fmap, Hi. cbn.
  eexists. split; [reflexivity|]. cbn.
  split; [done|]. split.
  { pose proof (truncate_length (title s) 60). lia. }
  split; [apply truncate_spaced|].
  intros rest ->. rewrite replace_first_prefix.
  eexists. by rewrite <- app_assoc.
Qed.

End Options.

Lemma formatRelativeTime_buckets_witness :
  Lib.formatRelativeTime (host := Demo.host) (Some 0) (Some 300000)
  = lit "5m ago"
  ∧ Lib.formatRelativeTime (host := Demo.host) (Some 500) (Some 0)
    = lit "just now".
Proof.
  pose proof (formatRelativeTime_buckets (host := Demo.host) (Some 0) 300000)
    as (_ & Hm & _).
  pose proof (formatRelativeTime_buckets (host := Demo.host) (Some 500) 0)
    as (Hnow & _).
  split.
  - destruct Hm as [-> _]; [lia|]. vm_compute. reflexivity.
  - apply Hnow. lia.
Defined.

Lemma sessionsToOptions_shape_witness :
  let s := Lib.session_of (rt := Demo.runtime) (lit "/home/user")
             Demo.docker_session in
  ∃ o,
    Lib.sessionsToOptions (host := Demo.host) [s] (Some 0) !! 0%nat = Some o
    ∧ (length (Lib.name o) ≤ 60)%nat
    ∧ ∃ tail, Lib.description o = lit "~" ++ [] ++ tail.
Proof.
  intros s.
  destruct (sessionsToOptions_shape (host := Demo.host) [s] (Some 0))
    as [_ H].
  destruct (H 0%nat s eq_refl) as (o & Ho & _ & Hlen & _ & Hhome).
  exists o. split; [exact Ho|]. split; [exact Hlen|].
  apply Hhome. vm_compute. reflexivity.
Defined.

(** ** [parseSessionsFromDir] *)

Section ParseSessions.

Import Lib.

Context {rt : Runtime}.

Local Ltac step :=
  cbv beta iota delta [mbind M_bind mret M_ret throw try_catch]; cbn.

Lemma push_sessions cwdPath (es : list SessionIndexEntry) : ∀ sessions,
  foldl (λ sessions entry, sessions ++ [session_of cwdPath entry]) sessions es
  = sessions ++ (session_of cwdPath <$> es).
Proof.
  induction es as [|e es IH]; intros acc; cbn.
  - by rewrite app_nil_r.
  - by rewrite IH, <- app_assoc.
Qed.

Lemma project_loop_run projectsDir (listing : list jsstr) : ∀ sessions w,
  for_of listing sessions (λ sessions dir,
    let indexPath := path_join projectsDir dir (lit "sessions-index.json") in
    found ← existsSync indexPath;
    if negb found then mret sessions
    else
      try_catch
        (content ← readFile indexPath;
         index ← match JSON_parse_index content with
                 | Some index => mret index
                 | None => throw SyntaxError
                 end;
         let cwdPath := folderNameToPath dir in
         mret (foldl (λ sessions entry, sessions ++ [session_of cwdPath entry])
                     sessions (entries index)))
        (λ _, mret sessions)) w
  = (Val (sessions ++ concat (index_sessions w projectsDir <$> listing)), w).
Proof.
  induction listing as [|dir listing IH]; intros acc w.
  { cbn. by rewrite app_nil_r. }
  cbn [for_of]. rewrite bind_run. cbn zeta. rewrite bind_run.
  unfold existsSync at 1. cbn [fmap list_fmap concat].
  unfold index_sessions at 1.
  destruct (files w !! path_join projectsDir dir (lit "sessions-index.json"))
    as [content|] eqn:Hread.
  - rewrite bool_decide_eq_true_2 by (left; eauto). cbn [negb].
    unfold try_catch at 1. rewrite bind_run. unfold readFile at 1.
    rewrite Hread. rewrite bind_run.
    destruct (JSON_parse_index content) as [index|]; step.
    + rewrite push_sessions, IH. by rewrite <- app_assoc.
    + by rewrite IH.
  - case_bool_decide; cbn [negb].
    + unfold try_catch at 1. rewrite bind_run. unfold readFile at 1.
      rewrite Hread. step. by rewrite IH.
    + step. by rewrite IH.
Qed.

Lemma parseSessionsFromDir_listed projectsDir w listing :
  dirs w !! projectsDir = Some listing →
  parseSessionsFromDir projectsDir w
  = (Val (sort_desc (concat (index_sessions w projectsDir <$> listing))), w).
Proof.
  intros Hd. unfold parseSessionsFromDir. rewrite bind_run.
  unfold existsSync at 1. rewrite bool_decide_eq_true_2 by (right; eauto).
  cbn [negb]. rewrite bind_run. unfold readdir. rewrite Hd.
  rewrite bind_run, project_loop_run. done.
Qed.

Lemma insert_session_perm x l : insert_session x l ≡ₚ x :: l.
Proof.
  induction l as [|y l IH]; cbn; [done|].
  destruct (comes_after x y); [|done].
  rewrite IH. apply Permutation_swap.
Qed.

Lemma sort_desc_perm l : sort_desc l ≡ₚ l.
Proof.
  unfold sort_desc. induction l as [|x l IH]; cbn; [done|].
  by rewrite insert_session_perm, IH.
Qed.

Lemma insert_session_sorted x l :
  is_Some (timestamp x) →
  Forall (λ s, is_Some (timestamp s)) l →
  StronglySorted not_older l →
  StronglySorted not_older (insert_session x l).
Proof.
  intros [tx Hx] Hvalid Hsorted.
  induction Hsorted as [|y l Hl IH Hy]; cbn.
  { repeat constructor. }
  apply Forall_cons in Hvalid as [[ty Hty] Hvalid].
  unfold comes_after, compare_desc, num_sub. rewrite Hx, Hty.
  destruct (0 <? ty - tx) eqn:E.
  - apply Z.ltb_lt in E. constructor; [by apply IH|].
    rewrite insert_session_perm. constructor; [|done].
    unfold not_older. rewrite Hx, Hty. lia.
  - apply Z.ltb_ge in E. constructor; [by constructor|].
    constructor.
    + unfold not_older. rewrite Hx, Hty. lia.
    + eapply Forall_impl; [exact Hy|]. intros z. unfold not_older.
      rewrite Hx, Hty. destruct (timestamp z); [lia|done].
Qed.

Lemma sort_desc_sorted l :
  Forall (λ s, is_Some (timestamp s)) l →
  StronglySorted not_older (sort_desc l).
Proof.
  unfold sort_desc. induction 1 as [|x l Hx Hl IH]; cbn; [constructor|].
  apply insert_session_sorted; [done| |done].
  fold (sort_desc l). by rewrite sort_desc_perm.
Qed.

(** X28: [parseSessionsFromDir] changes nothing in the world.  When
    nothing is at the path it returns the empty list; when the path is a
    directory it returns a list, whatever the state of the index files in
    it; when a file is at the path, the listing throws and the exception
    is not caught. *)
Theorem parseSessionsFromDir_total (projectsDir : jsstr) (w : World) :
  (parseSessionsFromDir projectsDir w).2 = w
  ∧ (files w !! projectsDir = None → dirs w !! projectsDir = None →
     (parseSessionsFromDir projectsDir w).1 = Val [])
  ∧ (is_Some (dirs w !! projectsDir) →
     ∃ sessions, (parseSessionsFromDir projectsDir w).1 = Val sessions)
  ∧ (is_Some (files w !! projectsDir) → dirs w !! projectsDir = None →
     (parseSessionsFromDir projectsDir w).1 = Throw (ENOENT projectsDir)).
Proof.
  destruct (dirs w !! projectsDir) as [listing|] eqn:Hd.
  { rewrite (parseSessionsFromDir_listed _ _ _ Hd). cbn.
    split_and!; [done|done|eauto|done]. }
  destruct (files w !! projectsDir) as [c|] eqn:Hf.
  - assert (parseSessionsFromDir projectsDir w
            = (Throw (ENOENT projectsDir), w)) as ->.
    { unfold parseSessionsFromDir. rewrite bind_run. unfold existsSync at 1.
      rewrite bool_decide_eq_true_2 by (left; eauto). cbn [negb].
      rewrite bind_run. unfold readdir. by rewrite Hd. }
    split_and!; [done|done|by intros [? ?]|done].
  - assert (parseSessionsFromDir projectsDir w = (Val [], w)) as ->.
    { unfold parseSessionsFromDir. rewrite bind_run. unfold existsSync at 1.
      rewrite bool_decide_eq_false_2; [done|].
      rewrite Hf, Hd. by intros [[? ?]|[? ?]]. }
    split_and!; [done|done|by intros [? ?]|by intros [? ?]].
Qed.

(** X29: the sessions returned for a projects directory are, up to order,
    the sessions of the index files that read and parse, one per entry: a
    project whose index is missing, unreadable or not valid JSON
    contributes nothing and does not stop the others. *)
Theorem parseSessionsFromDir_collects
    (projectsDir : jsstr) (w : World) (listing : list jsstr) :
  dirs w !! projectsDir = Some listing →
  ∃ sessions,
    parseSessionsFromDir projectsDir w = (Val sessions, w)
    ∧ sessions ≡ₚ concat (index_sessions w projectsDir <$> listing)
    ∧ ∀ dir,
        match files w !! path_join projectsDir dir (lit "sessions-index.json") with
        | Some content =>
            match JSON_parse_index content with
            | Some index =>
                index_sessions w projectsDir dir
                = session_of (folderNameToPath dir) <$> entries index
            | None => index_sessions w projectsDir dir = []
            end
        | None => index_sessions w projectsDir dir = []
        end.
Proof.
  intros Hd. rewrite (parseSessionsFromDir_listed _ _ _ Hd).
  eexists. split; [reflexivity|]. split; [apply sort_desc_perm|].
  intros dir. unfold index_sessions.
  destruct (files w !! _) as [content|]; [|done].
  by destruct (JSON_parse_index content).
Qed.

(** X30: when every returned session has a timestamp that is a number, the
    list is sorted newest first. *)
Theorem parseSessionsFromDir_sorted
    (projectsDir : jsstr) (w : World) (sessions : list Session) :
  (parseSessionsFromDir projectsDir w).1 = Val sessions →
  Forall (λ s, is_Some (timestamp s)) sessions →
  StronglySorted not_older sessions.
Proof.
  destruct (dirs w !! projectsDir) as [listing|] eqn:Hd.
  - rewrite (parseSessionsFromDir_listed _ _ _ Hd). cbn.
    intros [= <-] Hvalid. apply sort_desc_sorted.
    by rewrite sort_desc_perm in Hvalid.
  - destruct (parseSessionsFromDir_total projectsDir w) as (_ & Hnone & _ & Hfile).
    destruct (files w !! projectsDir) as [c|] eqn:Hf.
    + rewrite Hfile by eauto. done.
    + rewrite Hnone by done. intros [= <-] _. constructor.
Qed.

End ParseSessions.

(** The projects directory of the examples holds a project with a
    malformed index, one without an index and one with five sessions. *)
Lemma parseSessionsFromDir_total_witness :
  (∃ sessions,
     (Lib.parseSessionsFromDir (rt := Demo.runtime)
        CONFIG.projectsDir Demo.world).1 = Val sessions)
  ∧ (Lib.parseSessionsFromDir (rt := Demo.runtime)
       (lit "/nowhere") Demo.world).1 = Val []
  ∧ (Lib.parseSessionsFromDir (rt := Demo.runtime)
       Demo.good_index_path Demo.world).1
    = Throw (ENOENT Demo.good_index_path).
Proof.
  split_and!.
  - apply (parseSessionsFromDir_total (rt := Demo.runtime)
             CONFIG.projectsDir Demo.world).
    vm_compute. eauto.
  - apply (parseSessionsFromDir_total (rt := Demo.runtime)
             (lit "/nowhere") Demo.world); vm_compute; reflexivity.
  - apply (parseSessionsFromDir_total (rt := Demo.runtime)
             Demo.good_index_path Demo.world).
    + vm_compute. eauto.
    + vm_compute. reflexivity.
Defined.

Lemma parseSessionsFromDir_collects_witness :
  ∃ sessions,
    Lib.parseSessionsFromDir (rt := Demo.runtime) CONFIG.projectsDir Demo.world
    = (Val sessions, Demo.world)
    ∧ length sessions = 5%nat.
Proof.
  destruct (parseSessionsFromDir_collects (rt := Demo.runtime)
              CONFIG.projectsDir Demo.world
              [lit "-home-user-broken"; lit "-home-user-noindex";
               lit "-home-user-project"])
    as (sessions & Hrun & Hperm & _).
  { vm_compute. reflexivity. }
  exists sessions. split; [exact Hrun|].
  rewrite Hperm. vm_compute. reflexivity.
Defined.

Lemma parseSessionsFromDir_sorted_witness :
  ∃ sessions,
    (Lib.parseSessionsFromDir (rt := Demo.runtime)
       CONFIG.projectsDir Demo.world).1 = Val sessions
    ∧ length sessions = 5%nat
    ∧ StronglySorted Lib.not_older sessions.
Proof.
  eexists. split; [vm_compute; reflexivity|].
  split; [reflexivity|].
  apply (parseSessionsFromDir_sorted (rt := Demo.runtime)
           CONFIG.projectsDir Demo.world); [vm_compute; reflexivity|].
  repeat (constructor; [by eexists|]). constructor.
Defined.
